(** * The hierarchical configuration resolver of aws_toolkit

    A shallow embedding of [aws_toolkit/core/config.py] (class [Config]):
    the nested configuration tree, the environment layer, the optional YAML
    overlay with its deep merge, dot-path [get]/[set] and the credential view
    handed to boto3.

    Python dictionaries are finite maps ([gmap string value]); a Python
    exception is an explicit outcome of the [result] monad.  A [Config]
    object is identified with the dictionary held in its [_config]
    attribute.  In the modules [Config] and [Model] a configuration is
    taken by content, and the in-place updates of [set] and [_merge_config]
    are functions from the old content to the new one: this is enough for
    what is read at the place that was written to.  What a write leaves
    alone depends on which dictionaries are one object, since [set] and
    [_merge_config] store the objects they are given; the module [Store]
    keeps the dictionaries at their addresses, and the frame of [set] is
    stated there. *)

From stdpp Require Import gmap strings list fin_maps.
From Stdlib Require Import ZArith Ascii String DecimalString.

#[local] Set Warnings "-register-all".
#[local] Open Scope string_scope.
#[local] Open Scope Z_scope.

(** ** Python values and the builtins the module relies on *)

Module Py.

(** The values a configuration tree can hold: what [os.getenv],
    [yaml.safe_load] and the callers of [set] provide. The other scalars
    of YAML (floats, dates) behave as the scalars listed here do. *)
Inductive value : Type :=
  | VNone
  | VBool (b : bool)
  | VInt (z : Z)
  | VStr (s : string)
  | VList (l : list value)
  | VDict (m : gmap string value).

Inductive exn : Type :=
  | TypeError
  | KeyError (key : string)
  | IndexError
  | AttributeError
  | ValueError (message : string)
  | UnicodeDecodeError (message : string)
  | OSError (kind : string).

Inductive result (A : Type) : Type :=
  | Ok (a : A)
  | Raise (e : exn).
Arguments Ok {A} a.
Arguments Raise {A} e.

(** Sequencing: an exception ends the computation. *)
Definition bind {A B} (c : result A) (k : A → result B) : result B :=
  match c with
  | Ok a => k a
  | Raise e => Raise e
  end.

Definition raises {A} (c : result A) : Prop := ∃ e, c = Raise e.
Definition returns {A} (c : result A) : Prop := ∃ a, c = Ok a.

(** [isinstance(v, dict)] *)
Definition isinstance_dict (v : value) : bool :=
  match v with
  | VDict _ => true
  | _ => false
  end.

(** [bool(v)], the test of an [if v:] statement. *)
Definition truthy (v : value) : bool :=
  match v with
  | VNone => false
  | VBool b => b
  | VInt z => negb (z =? 0)
  | VStr s => negb (String.eqb s "")
  | VList l => match l with [] => false | _ => true end
  | VDict m => negb (bool_decide (m = ∅))
  end.

Fixpoint str_startswith (p s : string) : bool :=
  match p, s with
  | EmptyString, _ => true
  | String a p', String b s' => Ascii.eqb a b && str_startswith p' s'
  | String _ _, EmptyString => false
  end.

(** [p in s] for two strings: the substring test. *)
Fixpoint str_contains (p s : string) : bool :=
  str_startswith p s ||
  match s with
  | EmptyString => false
  | String _ s' => str_contains p s'
  end.

(** [k in container] for a string [k]. Dictionaries test their keys,
    strings test substrings, lists compare their elements with [k];
    [None], booleans and integers are not iterable. *)
Definition contains (container : value) (k : string) : result bool :=
  match container with
  | VDict m => Ok (bool_decide (is_Some (m !! k)))
  | VStr s => Ok (str_contains k s)
  | VList l =>
      Ok (existsb (λ x, match x with VStr s => String.eqb s k | _ => false end) l)
  | VNone | VBool _ | VInt _ => Raise TypeError
  end.

(** [container[k]] for a string [k]: only a dictionary can be subscripted
    by a string. *)
Definition getitem (container : value) (k : string) : result value :=
  match container with
  | VDict m =>
      match m !! k with
      | Some v => Ok v
      | None => Raise (KeyError k)
      end
  | _ => Raise TypeError
  end.

(** [container[k] = v] for a string [k]. *)
Definition setitem (container : value) (k : string) (v : value) : result value :=
  match container with
  | VDict m => Ok (VDict (<[k := v]> m))
  | _ => Raise TypeError
  end.

(** [s.split(".")]: one more piece than there are dots, never empty. *)
Fixpoint split_dot (s : string) : list string :=
  match s with
  | EmptyString => [EmptyString]
  | String c rest =>
      if Ascii.eqb c "."%char then EmptyString :: split_dot rest
      else
        match split_dot rest with
        | piece :: pieces => String c piece :: pieces
        | [] => [String c EmptyString]
        end
  end.

(** [s.lower()] on ASCII text. *)
Definition lower_char (c : ascii) : ascii :=
  let n := nat_of_ascii c in
  if ((65 <=? n) && (n <=? 90))%nat then ascii_of_nat (n + 32) else c.

Fixpoint lower (s : string) : string :=
  match s with
  | EmptyString => EmptyString
  | String c rest => String (lower_char c) (lower rest)
  end.

(** [int(s)] for a string of ASCII text: the white space of the C locale
    is dropped at both ends, a sign is optional, the digits may be grouped
    by single underscores. (Beyond ASCII, [int] also reads the decimal
    digits and the spaces of Unicode; what is said of texts that [int]
    refuses is said of the texts that [plain] admits.) *)
Definition is_space (c : ascii) : bool :=
  let n := nat_of_ascii c in
  (((9 <=? n) && (n <=? 13)) || (n =? 32))%nat.

Fixpoint lstrip (s : string) : string :=
  match s with
  | String c rest => if is_space c then lstrip rest else s
  | EmptyString => EmptyString
  end.

Fixpoint rstrip (s : string) : string :=
  match s with
  | String c rest =>
      match rstrip rest with
      | EmptyString => if is_space c then EmptyString else String c EmptyString
      | kept => String c kept
      end
  | EmptyString => EmptyString
  end.

Definition digit (c : ascii) : option Z :=
  let n := nat_of_ascii c in
  if ((48 <=? n) && (n <=? 57))%nat then Some (Z.of_nat n - 48) else None.

Fixpoint digits (acc : Z) (after_digit : bool) (s : string) : option Z :=
  match s with
  | EmptyString => if after_digit then Some acc else None
  | String c rest =>
      if Ascii.eqb c "_"%char then
        if after_digit then digits acc false rest else None
      else
        match digit c with
        | Some d => digits (10 * acc + d) true rest
        | None => None
        end
  end.

Definition int_literal (s : string) : option Z :=
  match rstrip (lstrip s) with
  | String "-" body => Z.opp <$> digits 0 false body
  | String "+" body => digits 0 false body
  | body => digits 0 false body
  end.

(** [repr(s)] for ASCII text: double quotes when the text holds a single
    quote and no double one, a backslash before the quote in use and
    before a backslash, the control characters escaped. *)
Definition backslash : ascii := ascii_of_nat 92.
Definition single_quote : ascii := ascii_of_nat 39.
Definition double_quote : ascii := ascii_of_nat 34.

Fixpoint occurs (c : ascii) (s : string) : bool :=
  match s with
  | EmptyString => false
  | String c' rest => Ascii.eqb c c' || occurs c rest
  end.

Definition hex_digit (n : nat) : ascii :=
  if (n <? 10)%nat then ascii_of_nat (48 + n) else ascii_of_nat (87 + n).

Definition escape (quote c : ascii) : string :=
  let n := nat_of_ascii c in
  if Ascii.eqb c quote || Ascii.eqb c backslash then String backslash (String c "")
  else if (n =? 9)%nat then String backslash "t"
  else if (n =? 10)%nat then String backslash "n"
  else if (n =? 13)%nat then String backslash "r"
  else if ((n <? 32) || (n =? 127))%nat then
    String backslash
      (String "x" (String (hex_digit (n / 16)) (String (hex_digit (n mod 16)) "")))
  else String c "".

Fixpoint escaped (quote : ascii) (s : string) : string :=
  match s with
  | EmptyString => EmptyString
  | String c rest => escape quote c +:+ escaped quote rest
  end.

Definition repr (s : string) : string :=
  let quote :=
    if occurs single_quote s && negb (occurs double_quote s)
    then double_quote else single_quote in
  String quote (escaped quote s +:+ String quote "").

(** The first [n] characters of [s], the [%.200R] of the message. *)
Fixpoint str_take (n : nat) (s : string) : string :=
  match n, s with
  | S n, String c rest => String c (str_take n rest)
  | _, _ => EmptyString
  end.

(** The number of digits of the run of digits and underscores that opens
    [s], when the run is well formed. It is counted, and held against the
    limit of [sys.int_info.default_max_str_digits], before what follows
    the run is looked at. *)
Fixpoint run_digits (after_digit : bool) (s : string) : option nat :=
  match s with
  | EmptyString => if after_digit then Some 0%nat else None
  | String c rest =>
      if Ascii.eqb c "_"%char then
        if after_digit then run_digits false rest else None
      else
        match digit c with
        | Some _ => S <$> run_digits true rest
        | None => if after_digit then Some 0%nat else None
        end
  end.

Definition unsigned (s : string) : string :=
  match lstrip s with
  | String "-" body => body
  | String "+" body => body
  | body => body
  end.

Definition max_str_digits : nat := 4300.

Definition decimal (n : nat) : string := NilZero.string_of_uint (Nat.to_uint n).

Definition invalid_literal (s : string) : exn :=
  ValueError ("invalid literal for int() with base 10: " +:+ str_take 200 (repr s)).

Definition exceeds_limit (n : nat) : exn :=
  ValueError ("Exceeds the limit (" +:+ decimal max_str_digits
              +:+ " digits) for integer string conversion: value has "
              +:+ decimal n
              +:+ " digits; use sys.set_int_max_str_digits() to increase the limit").

Definition over_limit (s : string) : option nat :=
  match run_digits false (unsigned s) with
  | Some n => if (max_str_digits <? n)%nat then Some n else None
  | None => None
  end.

Definition int (s : string) : result Z :=
  match over_limit s with
  | Some n => Raise (exceeds_limit n)
  | None =>
      match int_literal s with
      | Some z => Ok z
      | None => Raise (invalid_literal s)
      end
  end.

(** ASCII text short enough for the limit on digits to be out of reach,
    whatever it is set to. *)
Definition plain (s : string) : bool :=
  forallb (λ c, (nat_of_ascii c <? 128)%nat) (list_ascii_of_string s)
  && (String.length s <=? 640)%nat.

(** [os.getenv(name)] and [os.getenv(name, default)]. *)
Definition getenv (environ : gmap string string) (name : string) : value :=
  match environ !! name with
  | Some s => VStr s
  | None => VNone
  end.

Definition getenv_or (environ : gmap string string) (name default : string) : string :=
  match environ !! name with
  | Some s => s
  | None => default
  end.

End Py.

Export Py.

Notation "x <- c ;; k" := (Py.bind c (λ x, k))
  (at level 100, c at next level, right associativity, only parsing).

(** ** The outside world read at construction time *)

(** What [open(path, "r")] followed by [yaml.safe_load] makes of a path. *)
Inductive source : Type :=
  | Missing                          (* open raises FileNotFoundError *)
  | Unreadable (e : exn)             (* open, the read or the loader raises [e], which is
                                        neither FileNotFoundError nor a YAMLError *)
  | Malformed (diagnostic : string)  (* safe_load raises YAMLError, printed as diagnostic *)
  | Document (parsed : value).       (* the parsed document *)

(** [environ] is the process environment on entry, [dotenv] the assignments
    of the [.env] file of the working directory when there is one, [files]
    the file system as the YAML loader sees it. [env_file_error] is what
    [Path(".env").exists()] or [load_dotenv] raises when one of them does:
    the [OSError] of a directory or a file that may not be read, the
    [UnicodeDecodeError] of a file that is not UTF-8. *)
Record world : Type := World {
  environ : gmap string string;
  dotenv : option (gmap string string);
  files : string → source;
  env_file_error : option exn;
}.

(** ** class Config *)

Module Config.

(** The [_config] attribute: a dictionary from section names to values. *)
Abbreviation tree := (gmap string value).

(** [Path(".env").exists()] and [load_dotenv(env_file)]: variables that
    are already set keep their value. *)
Definition load_dotenv (w : world) : gmap string string :=
  match dotenv w with
  | Some assignments => environ w ∪ assignments
  | None => environ w
  end.

(** [self._config.update(d)] *)
Definition update (_config d : tree) : tree := d ∪ _config.

Definition _load_env_vars (w : world) (_config : tree) : result tree :=
  _ <- match env_file_error w with Some e => Raise e | None => Ok () end;;
  let env := load_dotenv w in
  timeout <- int (getenv_or env "LAMBDA_TIMEOUT" "30");;
  memory_size <- int (getenv_or env "LAMBDA_MEMORY_SIZE" "128");;
  Ok (update _config
    {[ "aws" := VDict
         {[ "access_key_id" := getenv env "AWS_ACCESS_KEY_ID";
            "secret_access_key" := getenv env "AWS_SECRET_ACCESS_KEY";
            "session_token" := getenv env "AWS_SESSION_TOKEN";
            "region" := VStr (getenv_or env "AWS_DEFAULT_REGION" "us-east-1");
            "profile" := getenv env "AWS_PROFILE" ]};
       "app" := VDict
         {[ "log_level" := VStr (getenv_or env "LOG_LEVEL" "INFO");
            "debug" := VBool (String.eqb (lower (getenv_or env "DEBUG" "false")) "true") ]};
       "s3" := VDict
         {[ "bucket_prefix" := VStr (getenv_or env "S3_BUCKET_PREFIX" "aws-toolkit-");
            "encryption" := VStr (getenv_or env "S3_ENCRYPTION" "AES256") ]};
       "ec2" := VDict
         {[ "key_pair_name" := VStr (getenv_or env "EC2_KEY_PAIR_NAME" "aws-toolkit-keypair");
            "security_group" := VStr (getenv_or env "EC2_SECURITY_GROUP" "aws-toolkit-sg") ]};
       "lambda" := VDict
         {[ "timeout" := VInt timeout;
            "memory_size" := VInt memory_size ]} ]}).

(** The mapping held at [key], when there is one:
    [key in base and isinstance(base[key], dict)]. *)
Definition dict_at (base : tree) (key : string) : option tree :=
  match base !! key with
  | Some (VDict sub) => Some sub
  | _ => None
  end.

(** [_merge_config(base, overlay)] mutates [base] in place; the model
    returns the dictionary [base] has become. [overlay.items()] needs a
    dictionary, and the keys of one are distinct, so that the order of the
    loop is immaterial. *)
Fixpoint _merge_config (base : tree) (overlay : value) {struct overlay} : result tree :=
  match overlay with
  | VDict items =>
      map_fold (λ key value loop,
        base <- loop;;
        match isinstance_dict value, dict_at base key with
        | true, Some sub =>
            merged <- _merge_config sub value;;
            Ok (<[key := VDict merged]> base)
        | _, _ => Ok (<[key := value]> base)
        end) (Ok base) items
  | _ => Raise AttributeError
  end.

(** The error of line 78: [ValueError(f"Invalid YAML in config file: {e}")]. *)
Definition ConfigParseError (diagnostic : string) : exn :=
  ValueError ("Invalid YAML in config file: " +:+ diagnostic).

(** [open(config_file, "r")] and [yaml.safe_load(f)]; the empty string
    names no file. *)
Definition open_yaml (w : world) (config_file : string) : source :=
  if String.eqb config_file "" then Missing else files w config_file.

Definition _load_config_file (w : world) (_config : tree) (config_file : string)
  : result tree :=
  match open_yaml w config_file with
  | Missing => Ok _config
  | Unreadable e => Raise e
  | Malformed diagnostic => Raise (ConfigParseError diagnostic)
  | Document file_config => _merge_config _config file_config
  end.

(** [Config(config_file)]; [if config_file:] skips [None] and the empty
    string. *)
Definition __init__ (w : world) (config_file : option string) : result tree :=
  _config <- _load_env_vars w ∅;;
  match config_file with
  | Some path =>
      if String.eqb path "" then Ok _config
      else _load_config_file w _config path
  | None => Ok _config
  end.

(** The loop of [get]: [value] is the cursor, [keys] what is left of the
    path. *)
Fixpoint get_loop (value : Py.value) (keys : list string) (default : Py.value)
  : result Py.value :=
  match keys with
  | [] => Ok value
  | k :: keys =>
      found <- (if isinstance_dict value then contains value k else Ok false);;
      if found then
        value <- getitem value k;;
        get_loop value keys default
      else Ok default
  end.

Definition get (_config : tree) (key : string) (default : value) : result value :=
  let keys := split_dot key in
  get_loop (VDict _config) keys default.

(** [config[k]] and the cursor are one object: what the rest of the loop
    does to the cursor shows in [config]. *)
Definition alias (config : value) (k : string) (child : value) : value :=
  match config with
  | VDict m => VDict (<[k := child]> m)
  | _ => config
  end.

(** The loop of [set] over [keys[:-1]], ending with the assignment at
    [keys[-1]]. It returns what the object [config] has become. A mapping
    is created only past the first absent segment, where no scalar can be
    met any more: when the loop raises, the tree is as it was. *)
Fixpoint set_loop (config : value) (init : list string) (final : string) (v : value)
  : result value :=
  match init with
  | [] => setitem config final v
  | k :: init =>
      present <- contains config k;;
      config <- (if negb present then setitem config k (VDict ∅) else Ok config);;
      child <- getitem config k;;
      child <- set_loop child init final v;;
      Ok (alias config k child)
  end.

Definition set (_config : tree) (key : string) (v : value) : result tree :=
  let keys := split_dot key in
  match last keys with
  | Some final =>
      config <- set_loop (VDict _config) (removelast keys) final v;;
      match config with
      | VDict _config => Ok _config
      | _ => Raise TypeError
      end
  | None => Raise IndexError
  end.

(** The [aws_config] property. *)
Definition aws_config (_config : tree) : result tree :=
  let aws_config : tree := ∅ in
  access_key_id <- get _config "aws.access_key_id" VNone;;
  aws_config <-
    (if truthy access_key_id then
       v <- get _config "aws.access_key_id" VNone;;
       Ok (<["aws_access_key_id" := v]> aws_config)
     else Ok aws_config);;
  secret_access_key <- get _config "aws.secret_access_key" VNone;;
  aws_config <-
    (if truthy secret_access_key then
       v <- get _config "aws.secret_access_key" VNone;;
       Ok (<["aws_secret_access_key" := v]> aws_config)
     else Ok aws_config);;
  session_token <- get _config "aws.session_token" VNone;;
  aws_config <-
    (if truthy session_token then
       v <- get _config "aws.session_token" VNone;;
       Ok (<["aws_session_token" := v]> aws_config)
     else Ok aws_config);;
  region <- get _config "aws.region" VNone;;
  aws_config <-
    (if truthy region then
       v <- get _config "aws.region" VNone;;
       Ok (<["region_name" := v]> aws_config)
     else Ok aws_config);;
  Ok aws_config.

End Config.

(** ** What the data model says, as pure functions *)

Module Model.
Import Config.

(** The value a list of segments addresses below [v]: one mapping level
    per segment, nothing when a segment is missing or when a segment has
    to be looked up in something that is not a mapping. *)
Fixpoint resolve (v : value) (path : list string) : option value :=
  match path with
  | [] => Some v
  | k :: path =>
      match v with
      | VDict m => m !! k ≫= λ v, resolve v path
      | _ => None
      end
  end.

Definition addressed (t : tree) (p : string) : option value :=
  resolve (VDict t) (split_dot p).

(** The number of constructors of a value, the measure for recursion
    through nested mappings. *)
Fixpoint weight (v : value) : nat :=
  match v with
  | VDict m => S (map_fold (λ _ v n, weight v + n)%nat 0%nat m)
  | VList l => S (foldr (λ v n, weight v + n)%nat 0%nat l)
  | _ => 1%nat
  end.

(** The segments of a dot-path that [set] walks through, and the one it
    assigns. *)
Definition init_segments (p : string) : list string := removelast (split_dot p).
Definition final_segment (p : string) : string := default "" (last (split_dot p)).

(** Every segment of [init], as long as it is there, holds a mapping. *)
Fixpoint mappings_or_absent (t : tree) (init : list string) : bool :=
  match init with
  | [] => true
  | k :: init =>
      match t !! k with
      | None => true
      | Some (VDict sub) => mappings_or_absent sub init
      | Some _ => false
      end
  end.

(** [set] as the contract words it: an empty mapping wherever a segment of
    [init] is absent, the value put at [final] in the place of whatever
    was there. (The contract is silent on a segment that holds a scalar;
    the function is used on paths without one.) *)
Fixpoint assign (t : tree) (init : list string) (final : string) (v : value) : tree :=
  match init with
  | [] => <[final := v]> t
  | k :: init =>
      match t !! k with
      | Some (VDict sub) => <[k := VDict (assign sub init final v)]> t
      | _ => <[k := VDict (assign ∅ init final v)]> t
      end
  end.

(** The two variables read through [int] hold integers that [int] takes
    (or are unset, their defaults being such). *)
Definition integer_env (w : world) : bool :=
  let env := load_dotenv w in
  match int (getenv_or env "LAMBDA_TIMEOUT" "30"),
        int (getenv_or env "LAMBDA_MEMORY_SIZE" "128") with
  | Ok _, Ok _ => true
  | _, _ => false
  end.

(** The environment layer loads: nothing fails around [.env] and the two
    integers are read. *)
Definition env_layer_loads (w : world) : bool :=
  bool_decide (env_file_error w = None) && integer_env w.

(** [os.path.exists] is false of the resource: [open] raises
    [FileNotFoundError], or [NotADirectoryError] when what should be a
    directory of the path is a file. *)
Definition names_nothing (s : source) : bool :=
  match s with
  | Missing => true
  | Unreadable (OSError kind) => String.eqb kind "NotADirectoryError"
  | _ => false
  end.


(** The credential view: output key and source path of each entry. *)
Definition credential_paths : list (string * string) :=
  [ ("aws_access_key_id", "aws.access_key_id");
    ("aws_secret_access_key", "aws.secret_access_key");
    ("aws_session_token", "aws.session_token");
    ("region_name", "aws.region") ].

Definition source_path (k : string) : option string :=
  (list_to_map credential_paths : gmap string string) !! k.

(** What [get(p)] reads, and an entry that is kept only when its value is
    truthy. *)
Definition value_at (t : tree) (p : string) : value := default VNone (addressed t p).

Definition entry (k : string) (x : value) (view : tree) : tree :=
  if truthy x then <[k := x]> view else view.

(** One turn of the loop of [_merge_config], on the outcome of the turns
    before it. *)
Definition merge_item (key : string) (value : Py.value) (loop : result tree)
  : result tree :=
  base <- loop;;
  match isinstance_dict value, dict_at base key with
  | true, Some sub =>
      merged <- _merge_config sub value;;
      Ok (<[key := VDict merged]> base)
  | _, _ => Ok (<[key := value]> base)
  end.

(** The loop of [_merge_config] over [overlay.items()] taken in the order
    of a list, the insertion order of the dictionary for one. *)
Definition merge_in_order (base : tree) (items : list (string * value)) : result tree :=
  foldl (λ loop item, merge_item item.1 item.2 loop) (Ok base) items.

(** What the merge of [items] into [base] holds at [k] once it has
    produced [t]. *)
Definition merged_at (base items t : tree) (k : string) : Prop :=
  match items !! k with
  | Some (VDict b) =>
      match base !! k with
      | Some (VDict a) =>
          ∃ sub, _merge_config a (VDict b) = Ok sub ∧ t !! k = Some (VDict sub)
      | _ => t !! k = Some (VDict b)
      end
  | Some v => t !! k = Some v
  | None => t !! k = base !! k
  end.

End Model.

(** ** Sample worlds and trees *)

Module Sample.
Import Config.

Definition no_files : string → source := λ _, Missing.

(** Nothing set, no [.env], no file. *)
Definition bare : world := World ∅ None no_files None.

(** The tree built when nothing but the region is set anywhere. *)
Definition defaults (region : string) : tree :=
  {[ "aws" := VDict
       {[ "access_key_id" := VNone;
          "secret_access_key" := VNone;
          "session_token" := VNone;
          "region" := VStr region;
          "profile" := VNone ]};
     "app" := VDict {[ "log_level" := VStr "INFO"; "debug" := VBool false ]};
     "s3" := VDict
       {[ "bucket_prefix" := VStr "aws-toolkit-"; "encryption" := VStr "AES256" ]};
     "ec2" := VDict
       {[ "key_pair_name" := VStr "aws-toolkit-keypair";
          "security_group" := VStr "aws-toolkit-sg" ]};
     "lambda" := VDict {[ "timeout" := VInt 30; "memory_size" := VInt 128 ]} ]}.

(** A region in the environment and another one in [config.yaml]. *)
Definition regions : world :=
  World {[ "AWS_DEFAULT_REGION" := "eu-west-1" ]} None
    (λ path,
       if String.eqb path "config.yaml"
       then Document (VDict {[ "aws" := VDict {[ "region" := VStr "ap-south-1" ]} ]})
       else Missing)
    None.

(** [broken.yaml] does not parse. *)
Definition broken : world :=
  World ∅ None
    (λ path,
       if String.eqb path "broken.yaml"
       then Malformed "mapping values are not allowed here"
       else Missing)
    None.

(** The same file, and a timeout that is not a number. *)
Definition broken_timeout : world :=
  World {[ "LAMBDA_TIMEOUT" := "abc" ]} None (files broken) None.


(** [notes.txt] is a file, so that [notes.txt/config.yaml] names nothing:
    [open] raises [NotADirectoryError]. *)
Definition beside_a_file : world :=
  World ∅ None
    (λ path,
       if String.eqb path "notes.txt/config.yaml"
       then Unreadable (OSError "NotADirectoryError")
       else Missing)
    None.



(** The variables of the fixture [temp_env_vars] of the test suite. *)
Definition fixture : world :=
  World {[ "AWS_ACCESS_KEY_ID" := "test_key";
           "AWS_SECRET_ACCESS_KEY" := "test_secret";
           "AWS_DEFAULT_REGION" := "us-west-2" ]} None no_files None.

(** The two dictionaries of [test_merge_config]. *)
Definition base_config : tree :=
  {[ "aws" := VDict {[ "region" := VStr "us-east-1"; "access_key_id" := VStr "base_key" ]};
     "app" := VDict {[ "log_level" := VStr "INFO" ]} ]}.

Definition overlay_config : tree :=
  {[ "aws" := VDict {[ "region" := VStr "eu-west-1" ]};
     "new_section" := VDict {[ "new_value" := VStr "test" ]} ]}.

Definition nested : tree := {[ "a" := VDict {[ "b" := VInt 1 ]} ]}.

Definition keyed : tree :=
  {[ "aws" := VDict {[ "access_key_id" := VStr "test_key";
                       "secret_access_key" := VStr "";
                       "session_token" := VNone;
                       "region" := VStr "us-west-2" ]} ]}.

End Sample.

(** ** More of the data model: what an overlay leaves alone, the table of
    the environment layer *)

Module Shape.
Import Config.

(** The overlay says nothing about [path]: following it, a mapping of the
    overlay lacks the next segment (before any scalar is met). *)
Fixpoint missing_in (overlay : tree) (path : list string) : bool :=
  match path with
  | [] => false
  | k :: path =>
      match overlay !! k with
      | None => true
      | Some (VDict sub) => missing_in sub path
      | Some _ => false
      end
  end.

(** A key without a dot. *)
Fixpoint dotless (s : string) : bool :=
  match s with
  | EmptyString => true
  | String c rest => negb (Ascii.eqb c "."%char) && dotless rest
  end.

(** The environment layer as a table: path, variable, default. *)
Definition env_strings : list (string * string * string) :=
  [ ("aws.region", "AWS_DEFAULT_REGION", "us-east-1");
    ("app.log_level", "LOG_LEVEL", "INFO");
    ("s3.bucket_prefix", "S3_BUCKET_PREFIX", "aws-toolkit-");
    ("s3.encryption", "S3_ENCRYPTION", "AES256");
    ("ec2.key_pair_name", "EC2_KEY_PAIR_NAME", "aws-toolkit-keypair");
    ("ec2.security_group", "EC2_SECURITY_GROUP", "aws-toolkit-sg") ].

(** The variables without a default: path, variable. *)
Definition env_optionals : list (string * string) :=
  [ ("aws.access_key_id", "AWS_ACCESS_KEY_ID");
    ("aws.secret_access_key", "AWS_SECRET_ACCESS_KEY");
    ("aws.session_token", "AWS_SESSION_TOKEN");
    ("aws.profile", "AWS_PROFILE") ].

(** The variables read through [int]. *)
Definition env_integers : list (string * string * string) :=
  [ ("lambda.timeout", "LAMBDA_TIMEOUT", "30");
    ("lambda.memory_size", "LAMBDA_MEMORY_SIZE", "128") ].

(** The dictionary that [_load_env_vars] builds from the environment and
    the two integers it has parsed. *)
Definition env_tree (env : gmap string string) (timeout memory_size : Z) : tree :=
  {[ "aws" := VDict
       {[ "access_key_id" := getenv env "AWS_ACCESS_KEY_ID";
          "secret_access_key" := getenv env "AWS_SECRET_ACCESS_KEY";
          "session_token" := getenv env "AWS_SESSION_TOKEN";
          "region" := VStr (getenv_or env "AWS_DEFAULT_REGION" "us-east-1");
          "profile" := getenv env "AWS_PROFILE" ]};
     "app" := VDict
       {[ "log_level" := VStr (getenv_or env "LOG_LEVEL" "INFO");
          "debug" := VBool (String.eqb (lower (getenv_or env "DEBUG" "false")) "true") ]};
     "s3" := VDict
       {[ "bucket_prefix" := VStr (getenv_or env "S3_BUCKET_PREFIX" "aws-toolkit-");
          "encryption" := VStr (getenv_or env "S3_ENCRYPTION" "AES256") ]};
     "ec2" := VDict
       {[ "key_pair_name" := VStr (getenv_or env "EC2_KEY_PAIR_NAME" "aws-toolkit-keypair");
          "security_group" := VStr (getenv_or env "EC2_SECURITY_GROUP" "aws-toolkit-sg") ]};
     "lambda" := VDict
       {[ "timeout" := VInt timeout;
          "memory_size" := VInt memory_size ]} ]}.

(** The five sections of the environment layer. *)
Definition sections : list string := ["aws"; "app"; "s3"; "ec2"; "lambda"].

(** The ways of writing [true] that [lower] maps to it. *)
Definition true_spellings : list string :=
  [ "true"; "truE"; "trUe"; "trUE"; "tRue"; "tRuE"; "tRUe"; "tRUE";
    "True"; "TruE"; "TrUe"; "TrUE"; "TRue"; "TRuE"; "TRUe"; "TRUE" ].

End Shape.

Import Shape.

(** ** utils/logger.py *)

Module Logger.

(** [s.upper()] on ASCII text. *)
Definition upper_char (c : ascii) : ascii :=
  let n := nat_of_ascii c in
  if ((97 <=? n) && (n <=? 122))%nat then ascii_of_nat (n - 32) else c.

Fixpoint upper (s : string) : string :=
  match s with
  | EmptyString => EmptyString
  | String c rest => String (upper_char c) (upper rest)
  end.

(** A [logging.StreamHandler] with its formatter, and what the module keeps
    of a [logging.Logger]. [logging.getLogger(name)] gives the one logger
    of that name: the state of [logging] is a logger per name. (The root
    logger alone answers to two names, the empty one and [root]; what is
    said of the loggers that a call leaves alone is said of calls for
    another name than these two.) *)
Record handler : Type := Handler { stream : string; formatter : string }.
Record logger : Type := Logger { level : Z; handlers : list handler }.

Definition setLevel (l : logger) (number : Z) : logger :=
  {| level := number; handlers := handlers l |}.

Definition addHandler (l : logger) (h : handler) : logger :=
  {| level := level l; handlers := handlers l ++ [h] |}.

Definition INFO : Z := 20.

Definition no_handlers (l : logger) : bool :=
  match handlers l with
  | [] => true
  | _ => false
  end.

Definition store (loggers : string → logger) (name : string) (l : logger)
  : string → logger :=
  λ other, if String.eqb other name then l else loggers other.

Section get_logger.

(** [getattr(logging, NAME)] as [setLevel] takes it: the number of a level
    that [logging] has under that name, the exception raised for any other
    name. *)
Variable named_level : string → result Z.

(** [get_logger(name, level)]: the state of [logging] once the call has
    returned the logger [name]. *)
Definition get_logger (loggers : string → logger) (name : string) (level : value)
  : result (string → logger) :=
  let logger := loggers name in
  logger <- (if truthy level then
               text <- match level with
                       | VStr s => Ok (upper s)
                       | _ => Raise AttributeError
                       end;;
               number <- named_level text;;
               Ok (setLevel logger number)
             else if no_handlers logger then Ok (setLevel logger INFO)
             else Ok logger);;
  let logger :=
    if no_handlers logger then
      addHandler logger
        (Handler "sys.stdout" "%(asctime)s - %(name)s - %(levelname)s - %(message)s")
    else logger in
  Ok (store loggers name logger).

End get_logger.

(** The levels that [logging] defines, for the examples. *)
Definition standard_level (name : string) : result Z :=
  if String.eqb name "DEBUG" then Ok 10
  else if String.eqb name "INFO" then Ok 20
  else if String.eqb name "WARNING" then Ok 30
  else if String.eqb name "ERROR" then Ok 40
  else if String.eqb name "CRITICAL" then Ok 50
  else Raise AttributeError.

Definition fresh : string → logger := λ _, Logger 0 [].

End Logger.

(** ** services/s3_manager.py: the two methods that read the configuration *)

Module Service.
Import Config.

(** What a method of a manager can raise: an exception of Python, the
    [ClientError] of botocore with its text, a [FileNotFoundError] with its
    message, any other exception of the SDK. *)
Inductive error : Type :=
  | Python (e : exn)
  | ClientError (text : string)
  | FileNotFoundError (message : string)
  | OtherError (name : string).

(** The answer of the SDK to a call. *)
Inductive answer : Type :=
  | Responds (response : value)
  | Fails (e : error).

(** A method as the calls it makes: to the client of the SDK, to the
    logger, to [os.path.exists]. *)
Inductive prog (A : Type) : Type :=
  | Ret (a : A)
  | Throw (e : error)
  | Call (operation : string) (args : list value) (kwargs : tree) (k : answer → prog A)
  | Say (level message : string) (next : prog A)
  | Exists (path : string) (k : bool → prog A).
Arguments Ret {A} a.
Arguments Throw {A} e.
Arguments Call {A} operation args kwargs k.
Arguments Say {A} level message next.
Arguments Exists {A} path k.

Fixpoint bind {A B} (c : prog A) (f : A → prog B) : prog B :=
  match c with
  | Ret a => f a
  | Throw e => Throw e
  | Call operation args kwargs k => Call operation args kwargs (λ r, bind (k r) f)
  | Say level message next => Say level message (bind next f)
  | Exists path k => Exists path (λ b, bind (k b) f)
  end.

(** [try: c except ... as e: handler e]; a handler hands back the errors it
    does not catch. *)
Fixpoint try_except {A} (c : prog A) (handler : error → prog A) : prog A :=
  match c with
  | Ret a => Ret a
  | Throw e => handler e
  | Call operation args kwargs k =>
      Call operation args kwargs (λ r, try_except (k r) handler)
  | Say level message next => Say level message (try_except next handler)
  | Exists path k => Exists path (λ b, try_except (k b) handler)
  end.

(** A call to a method of [self.s3_client] with its positional and its
    keyword arguments. *)
Definition call (operation : string) (args : list value) (kwargs : tree) : prog value :=
  Call operation args kwargs
    (λ r, match r with
          | Responds response => Ret response
          | Fails e => Throw e
          end).

(** A computation of the configuration inside a method. *)
Definition lift {A} (c : result A) : prog A :=
  match c with
  | Ok a => Ret a
  | Raise e => Throw (Python e)
  end.

(** What happened during a run, in order. *)
Inductive event : Type :=
  | Called (operation : string) (args : list value) (kwargs : tree) (a : answer)
  | Said (level message : string)
  | Checked (path : string) (found : bool).

(** The world a method runs in: what the SDK answers and what is on the
    disk, each as a function of what has happened so far. *)
Record service : Type := Service {
  respond : list event → string → list value → tree → answer;
  on_disk : list event → string → bool;
}.

Inductive outcome (A : Type) : Type :=
  | Returned (a : A)
  | Raised (e : error).
Arguments Returned {A} a.
Arguments Raised {A} e.

Fixpoint run {A} (c : prog A) (s : service) (past : list event)
  : list event * outcome A :=
  match c with
  | Ret a => (past, Returned a)
  | Throw e => (past, Raised e)
  | Call operation args kwargs k =>
      let a := respond s past operation args kwargs in
      run (k a) s (past ++ [Called operation args kwargs a])
  | Say level message next => run next s (past ++ [Said level message])
  | Exists path k =>
      let found := on_disk s past path in
      run (k found) s (past ++ [Checked path found])
  end.

(** [v != s] for a string [s]. *)
Definition differs (v : value) (s : string) : bool :=
  match v with
  | VStr s' => negb (String.eqb s' s)
  | _ => true
  end.

(** [os.path.basename] of posixpath: what follows the last slash. *)
Fixpoint has_slash (s : string) : bool :=
  match s with
  | EmptyString => false
  | String c rest => Ascii.eqb c "/"%char || has_slash rest
  end.

Fixpoint basename (s : string) : string :=
  match s with
  | EmptyString => EmptyString
  | String c rest => if has_slash s then basename rest else s
  end.

(** [S3Manager.create_bucket(bucket_name, region)] on the configuration
    [self.config]. *)
Definition create_bucket (_config : tree) (bucket_name : string) (region : value)
  : prog bool :=
  try_except
    (bind (if truthy region then Ret region
           else lift (get _config "aws.region" VNone)) (λ region,
     bind (if differs region "us-east-1" then
             call "create_bucket" []
               {[ "Bucket" := VStr bucket_name;
                  "CreateBucketConfiguration" :=
                    VDict {[ "LocationConstraint" := region ]} ]}
           else call "create_bucket" [] {[ "Bucket" := VStr bucket_name ]}) (λ _,
     Say "info" ("Created bucket: " +:+ bucket_name) (Ret true))))
    (λ e, match e with
          | ClientError text =>
              Say "error" ("Failed to create bucket " +:+ bucket_name +:+ ": " +:+ text)
                (Throw e)
          | _ => Throw e
          end).

(** [S3Manager.upload_file(file_path, bucket_name, object_key, extra_args)].
    The dictionary [extra_args] of the caller is updated in place: the
    result carries what it has become beside the [True] that is returned. *)
Definition upload_file
    (_config : tree) (file_path bucket_name : string)
    (object_key : option string) (extra_args : option tree) : prog (bool * tree) :=
  try_except
    (Exists file_path (λ found,
       if negb found then Throw (FileNotFoundError ("File not found: " +:+ file_path))
       else
         let object_key :=
           match object_key with
           | None => basename file_path
           | Some key => key
           end in
         let extra_args :=
           match extra_args with
           | None => ∅
           | Some args => args
           end in
         bind (lift (get _config "s3.encryption" VNone)) (λ encryption,
         let extra_args :=
           if truthy encryption
              && negb (bool_decide (is_Some (extra_args !! "ServerSideEncryption")))
           then <["ServerSideEncryption" := encryption]> extra_args
           else extra_args in
         bind (call "upload_file"
                 [VStr file_path; VStr bucket_name; VStr object_key]
                 {[ "ExtraArgs" := VDict extra_args ]}) (λ _,
         Say "info"
           ("Uploaded " +:+ file_path +:+ " to s3://" +:+ bucket_name +:+ "/" +:+ object_key)
           (Ret (true, extra_args))))))
    (λ e, match e with
          | ClientError text | FileNotFoundError text =>
              Say "error" ("Failed to upload file: " +:+ text) (Throw e)
          | _ => Throw e
          end).

(** The calls to the SDK among the events of a run. *)
Definition is_call (e : event) : bool :=
  match e with
  | Called _ _ _ _ => true
  | _ => false
  end.

Definition calls (trace : list event) : list event := List.filter is_call trace.

End Service.

(** ** More sample worlds *)

Module Scenario.
Import Config Shape.

(** [DEBUG] written with a capital. *)
Definition debugging : world := World {[ "DEBUG" := "True" ]} None Sample.no_files None.

(** [wiped.yaml] holds [aws:] with nothing under it. *)
Definition wiped : world :=
  World ∅ None
    (λ path,
       if String.eqb path "wiped.yaml"
       then Document (VDict {[ "aws" := VNone ]})
       else Missing)
    None.

(** A region in the environment, another one and a log level in [.env]. *)
Definition with_dotenv : world :=
  World {[ "AWS_DEFAULT_REGION" := "eu-west-1" ]}
    (Some {[ "AWS_DEFAULT_REGION" := "us-west-1"; "LOG_LEVEL" := "DEBUG" ]})
    Sample.no_files None.

(** The logger of the S3 manager, asked for at level [debug]. *)
Definition s3_logger : string := "aws_toolkit.services.s3_manager".

Definition stdout_handler : Logger.handler :=
  Logger.Handler "sys.stdout" "%(asctime)s - %(name)s - %(levelname)s - %(message)s".

Definition set_up : string → Logger.logger :=
  Logger.store Logger.fresh s3_logger (Logger.Logger 10 [stdout_handler]).

(** An SDK that accepts everything and a disk with one file. *)
Definition obliging : Service.service :=
  Service.Service
    (λ _ _ _ _, Service.Responds (VDict ∅))
    (λ _ path, String.eqb path "/tmp/report.csv").

End Scenario.

(** ** Dictionaries as objects *)

(** [set] stores the object it is given and [get] returns the object it
    finds, so that one dictionary can come to sit at two places of a
    configuration; what is written below one place then shows below the
    other. The store keeps the dictionaries, each at its address, apart
    from the references to them. *)
Module Store.

Abbreviation loc := positive.

(** What a key of a dictionary holds: a dictionary by reference, any other
    value as it is. *)
Inductive item : Type :=
  | INone
  | IBool (b : bool)
  | IInt (z : Z)
  | IStr (s : string)
  | IList (l : list value)
  | IDict (l : loc).

Abbreviation heap := (gmap loc (gmap string item)).

Definition dict_of (h : heap) (l : loc) : gmap string item := default ∅ (h !! l).

(** The value an item that is not a dictionary stands for. *)
Definition plain_value (x : item) : value :=
  match x with
  | INone | IDict _ => VNone
  | IBool b => VBool b
  | IInt z => VInt z
  | IStr s => VStr s
  | IList l => VList l
  end.

Definition isinstance_dict (x : item) : bool :=
  match x with
  | IDict _ => true
  | _ => false
  end.

Definition truthy (h : heap) (x : item) : bool :=
  match x with
  | IDict l => negb (bool_decide (dict_of h l = ∅))
  | other => Py.truthy (plain_value other)
  end.

Definition contains (h : heap) (container : item) (k : string) : result bool :=
  match container with
  | IDict l => Ok (bool_decide (is_Some (dict_of h l !! k)))
  | other => Py.contains (plain_value other) k
  end.

Definition getitem (h : heap) (container : item) (k : string) : result item :=
  match container with
  | IDict l =>
      match dict_of h l !! k with
      | Some x => Ok x
      | None => Raise (KeyError k)
      end
  | _ => Raise TypeError
  end.

(** [container[k] = x] changes the dictionary that [container] refers
    to. *)
Definition setitem (h : heap) (container : item) (k : string) (x : item) : result heap :=
  match container with
  | IDict l => Ok (<[l := <[k := x]> (dict_of h l)]> h)
  | _ => Raise TypeError
  end.

(** The address of the dictionary that [{}] creates. *)
Definition new_dict (h : heap) : loc := fresh (dom h).

Fixpoint get_loop (h : heap) (value : item) (keys : list string) (default : item)
  : result item :=
  match keys with
  | [] => Ok value
  | k :: keys =>
      found <- (if isinstance_dict value then contains h value k else Ok false);;
      if found then
        value <- getitem h value k;;
        get_loop h value keys default
      else Ok default
  end.

(** [get] and [set] on the configuration whose [_config] is the dictionary
    at [_config]. *)
Definition get (h : heap) (_config : loc) (key : string) (default : item) : result item :=
  let keys := split_dot key in
  get_loop h (IDict _config) keys default.

Fixpoint set_loop (h : heap) (config : item) (init : list string) (final : string)
    (v : item) : result heap :=
  match init with
  | [] => setitem h config final v
  | k :: init =>
      present <- contains h config k;;
      h <- (if negb present then
              let l := new_dict h in
              setitem (<[l := ∅]> h) config k (IDict l)
            else Ok h);;
      child <- getitem h config k;;
      set_loop h child init final v
  end.

Definition set (h : heap) (_config : loc) (key : string) (v : item) : result heap :=
  let keys := split_dot key in
  match last keys with
  | Some final => set_loop h (IDict _config) (removelast keys) final v
  | None => Raise IndexError
  end.

(** The [aws_config] property. *)
Definition aws_config (h : heap) (_config : loc) : result (gmap string item) :=
  let aws_config : gmap string item := ∅ in
  access_key_id <- get h _config "aws.access_key_id" INone;;
  aws_config <-
    (if truthy h access_key_id then
       v <- get h _config "aws.access_key_id" INone;;
       Ok (<["aws_access_key_id" := v]> aws_config)
     else Ok aws_config);;
  secret_access_key <- get h _config "aws.secret_access_key" INone;;
  aws_config <-
    (if truthy h secret_access_key then
       v <- get h _config "aws.secret_access_key" INone;;
       Ok (<["aws_secret_access_key" := v]> aws_config)
     else Ok aws_config);;
  session_token <- get h _config "aws.session_token" INone;;
  aws_config <-
    (if truthy h session_token then
       v <- get h _config "aws.session_token" INone;;
       Ok (<["aws_session_token" := v]> aws_config)
     else Ok aws_config);;
  region <- get h _config "aws.region" INone;;
  aws_config <-
    (if truthy h region then
       v <- get h _config "aws.region" INone;;
       Ok (<["region_name" := v]> aws_config)
     else Ok aws_config);;
  Ok aws_config.

(** The item that a list of segments addresses below [x]. *)
Fixpoint resolve (h : heap) (x : item) (path : list string) : option item :=
  match path with
  | [] => Some x
  | k :: path =>
      match x with
      | IDict l => dict_of h l !! k ≫= λ x, resolve h x path
      | _ => None
      end
  end.

(** Every segment of [init], as long as it is there, holds a dictionary,
    and so does [x]. *)
Fixpoint mappings_or_absent (h : heap) (x : item) (init : list string) : bool :=
  match x with
  | IDict l =>
      match init with
      | [] => true
      | k :: init =>
          match dict_of h l !! k with
          | None => true
          | Some child => mappings_or_absent h child init
          end
      end
  | _ => false
  end.




End Store.

(** ** Sample stores *)

Module Objects.
Import Store.



End Objects.

Import Config Model.

(** ** Paths *)

Lemma split_dot_nonempty (s : string) : split_dot s ≠ [].
Proof.
  destruct s as [|c s]; simpl; [done|].
  destruct (Ascii.eqb c "."); [done|]. by destruct (split_dot s).
Qed.

Lemma last_removelast {A} (l : list A) (x : A) :
  last l = Some x → l = (removelast l ++ [x])%list.
Proof.
  induction l as [|a [|b l] IH]; intros Hl; simplify_eq/=; [done|].
  f_equal. by apply IH.
Qed.

Lemma split_dot_last (s : string) : is_Some (last (split_dot s)).
Proof.
  destruct (last (split_dot s)) eqn:E; [by eexists|].
  apply last_None in E. by apply split_dot_nonempty in E.
Qed.

(** ** get *)

Lemma get_loop_dict (m : tree) (k : string) (keys : list string) (d : value) :
  get_loop (VDict m) (k :: keys) d =
    match m !! k with
    | Some v => get_loop v keys d
    | None => Ok d
    end.
Proof.
  simpl. by destruct (m !! k).
Qed.

Lemma get_loop_scalar (v : value) (k : string) (keys : list string) (d : value) :
  isinstance_dict v = false → get_loop v (k :: keys) d = Ok d.
Proof. intros Hv. simpl. by rewrite Hv. Qed.

Lemma get_loop_resolve (v : value) (keys : list string) (d : value) :
  get_loop v keys d = Ok (default d (resolve v keys)).
Proof.
  revert v. induction keys as [|k keys IH]; intros v; [done|].
  destruct v as [| | | | |m]; try done.
  rewrite get_loop_dict. simpl. destruct (m !! k) as [v|]; simpl; [apply IH|done].
Qed.

(** ** _merge_config *)

Lemma weight_dict (m : tree) :
  weight (VDict m) = S (map_fold (λ _ v n, weight v + n)%nat 0%nat m).
Proof. done. Qed.

Lemma weight_item (m : tree) (k : string) (v : value) :
  m !! k = Some v → (weight v < weight (VDict m))%nat.
Proof.
  rewrite weight_dict. revert k v.
  induction m as [|i x m Hi IH] using map_ind; intros k v Hk.
  { by rewrite lookup_empty in Hk. }
  rewrite map_fold_insert_L; [|intros; lia|done].
  destruct (decide (i = k)) as [->|Hne].
  - rewrite lookup_insert_eq in Hk. simplify_eq. lia.
  - rewrite lookup_insert_ne in Hk by done. apply IH in Hk. lia.
Qed.

Lemma merge_config_unfold (base items : tree) :
  _merge_config base (VDict items) = map_fold merge_item (Ok base) items.
Proof. done. Qed.

Lemma merged_at_other (base items t : tree) (i k : string) (x y : value) :
  i ≠ k → merged_at base items t k → merged_at base (<[i := x]> items) (<[i := y]> t) k.
Proof.
  intros Hne. unfold merged_at. by rewrite !lookup_insert_ne by done.
Qed.

Lemma merged_at_unique (base items t t' : tree) (k : string) :
  merged_at base items t k → merged_at base items t' k → t !! k = t' !! k.
Proof.
  unfold merged_at.
  destruct (items !! k) as [[| | | | |b]|]; try congruence.
  destruct (base !! k) as [[| | | | |a]|]; try congruence.
  intros (sub & Hsub & ->) (sub' & Hsub' & ->). congruence.
Qed.

(** One turn of the loop keeps the description of the tree built so far,
    provided that the recursive call returns. *)
Lemma merge_item_step (base m t : tree) (i : string) (x : value) :
  (∀ a items, x = VDict items → Py.returns (_merge_config a x)) →
  m !! i = None →
  (∀ k, merged_at base m t k) →
  ∃ t', merge_item i x (Ok t) = Ok t' ∧ ∀ k, merged_at base (<[i := x]> m) t' k.
Proof.
  intros Hrec Hi Ht.
  assert (t !! i = base !! i) as Hti.
  { specialize (Ht i). unfold merged_at in Ht. by rewrite Hi in Ht. }
  assert (∀ y, merged_at base (<[i := x]> m) (<[i := y]> t) i →
               ∃ t', Ok (<[i := y]> t) = Ok t' ∧
                     ∀ k, merged_at base (<[i := x]> m) t' k) as Hfin.
  { intros y Hy. eexists; split; [done|]. intros k.
    destruct (decide (i = k)) as [<-|Hne]; [done|by apply merged_at_other]. }
  unfold merge_item, dict_at; cbn [bind]. rewrite Hti.
  destruct x as [| | | | |xi]; cbn [isinstance_dict];
    try (apply Hfin; unfold merged_at; by rewrite !lookup_insert_eq).
  destruct (base !! i) as [[| | | | |a]|] eqn:Ebase;
    try (apply Hfin; unfold merged_at; by rewrite !lookup_insert_eq, ?Ebase).
  destruct (Hrec a xi eq_refl) as [sub Hsub].
  rewrite Hsub; cbn [bind]. apply Hfin. unfold merged_at.
  rewrite !lookup_insert_eq, Ebase. eauto.
Qed.

Lemma merge_config_bounded (n : nat) (base items : tree) :
  (∀ k v, items !! k = Some v → (weight v < n)%nat) →
  ∃ t, _merge_config base (VDict items) = Ok t ∧ ∀ k, merged_at base items t k.
Proof.
  revert base items. induction n as [|n IHn]; intros base items;
    rewrite merge_config_unfold;
    apply (map_fold_weak_ind (λ r m,
      (∀ k v, m !! k = Some v → (weight v < _)%nat) →
      ∃ t, r = Ok t ∧ ∀ k, merged_at base m t k)).
  1,3: intros _; exists base; split; [done|];
       intros k; unfold merged_at; by rewrite lookup_empty.
  - intros i x m r _ _ Hb. specialize (Hb i x (lookup_insert_eq _ _ _)). lia.
  - intros i x m r Hi IH Hb.
    destruct IH as (t & -> & Ht).
    { intros k v Hk. apply (Hb k v). rewrite lookup_insert_ne; [done|]. congruence. }
    apply merge_item_step; [|done..].
    intros a xi ->. destruct (IHn a xi) as (sub & Hsub & _); [|by eexists].
    intros k v Hk%weight_item.
    specialize (Hb i (VDict xi) (lookup_insert_eq _ _ _)). lia.
Qed.

Lemma merge_config_spec (base items : tree) :
  ∃ t, _merge_config base (VDict items) = Ok t ∧ ∀ k, merged_at base items t k.
Proof.
  apply (merge_config_bounded (weight (VDict items))). apply weight_item.
Qed.

(** The loop gives the same tree in whatever order it takes the items. *)
Lemma merge_config_any_order (base : tree) (l : list (string * value)) :
  NoDup l.*1 → merge_in_order base l = _merge_config base (VDict (list_to_map l)).
Proof.
  intros Hl.
  destruct (merge_config_spec base (list_to_map l)) as (t & -> & Ht).
  assert (∃ t', merge_in_order base l = Ok t' ∧
                ∀ k, merged_at base (list_to_map l) t' k) as (t' & -> & Ht').
  { clear t Ht. unfold merge_in_order.
    induction l as [|[i x] l IH] using rev_ind.
    { exists base. split; [done|]. intros k. unfold merged_at.
      by rewrite list_to_map_nil, lookup_empty. }
    rewrite fmap_app in Hl. apply NoDup_app in Hl as (Hl & Hi & _).
    destruct (IH Hl) as (t & Ht & Hat).
    assert (i ∉ l.*1) as Hfresh.
    { intros Hin. apply (Hi i Hin). simpl. apply list_elem_of_here. }
    rewrite foldl_snoc, Ht, list_to_map_snoc by done.
    apply merge_item_step; [|by apply not_elem_of_list_to_map_1|done].
    intros a xi ->. destruct (merge_config_spec a xi) as (sub & Hsub & _).
    by eexists. }
  f_equal. apply map_eq. intros k. by apply (merged_at_unique base (list_to_map l)).
Qed.

(** C1: overlaying mapping [B] onto mapping [A] recurses at the keys where
    both hold a mapping, puts the value of [B] in the place of the one of
    [A] at the other keys of [B], and keeps the keys that only [A] has. *)
Theorem merge_config_deep (A B : tree) :
  (∃ M, _merge_config A (VDict B) = Ok M ∧
     ∀ k,
       match B !! k with
       | Some (VDict b) =>
           match A !! k with
           | Some (VDict a) =>
               ∃ sub, _merge_config a (VDict b) = Ok sub ∧ M !! k = Some (VDict sub)
           | _ => M !! k = Some (VDict b)
           end
       | Some v => M !! k = Some v
       | None => M !! k = A !! k
       end) ∧
  _merge_config {[ "a" := VDict {[ "x" := VInt 1; "y" := VInt 2 ]} ]}
                (VDict {[ "a" := VDict {[ "x" := VInt 9 ]} ]})
    = Ok {[ "a" := VDict {[ "x" := VInt 9; "y" := VInt 2 ]} ]} ∧
  _merge_config {[ "a" := VDict {[ "x" := VInt 1 ]} ]} (VDict {[ "a" := VInt 9 ]})
    = Ok {[ "a" := VInt 9 ]}.
Proof.
  split; [apply merge_config_spec|]. split; vm_compute; reflexivity.
Qed.

(** ** set *)

Lemma segments_split (p : string) :
  split_dot p = (init_segments p ++ [final_segment p])%list.
Proof.
  unfold init_segments, final_segment.
  destruct (split_dot_last p) as [x Hx]. rewrite Hx. by apply last_removelast.
Qed.

Lemma set_segments (t : tree) (p : string) (v : value) :
  set t p v =
    (config <- set_loop (VDict t) (init_segments p) (final_segment p) v;;
     match config with
     | VDict _config => Ok _config
     | _ => Raise TypeError
     end).
Proof.
  unfold set, init_segments, final_segment.
  destruct (split_dot_last p) as [x Hx]. by rewrite Hx.
Qed.

Lemma mappings_or_absent_empty (init : list string) : mappings_or_absent ∅ init = true.
Proof. destruct init; [done|]. simpl. by rewrite lookup_empty. Qed.

Lemma set_loop_assign (t : tree) (init : list string) (final : string) (v : value) :
  mappings_or_absent t init = true →
  set_loop (VDict t) init final v = Ok (VDict (assign t init final v)).
Proof.
  revert t. induction init as [|k init IH]; intros t Hwf; [done|].
  simpl in *. destruct (t !! k) as [c|] eqn:Ek; simpl.
  - rewrite Ek. destruct c as [| | | | |sub]; try done.
    simpl. by rewrite (IH sub Hwf).
  - rewrite lookup_insert_eq. simpl.
    rewrite (IH ∅ (mappings_or_absent_empty init)). simpl.
    by rewrite insert_insert_eq.
Qed.

Lemma set_loop_scalar (c : value) (init : list string) (final : string) (v : value) :
  isinstance_dict c = false → set_loop c init final v = Raise TypeError.
Proof.
  intros Hc. destruct init as [|k init]; destruct c as [| | |s|l|]; try done; simpl.
  - by destruct (str_contains k s).
  - by destruct (existsb _ l).
Qed.

Lemma set_loop_ill_formed (t : tree) (init : list string) (final : string) (v : value) :
  mappings_or_absent t init = false →
  set_loop (VDict t) init final v = Raise TypeError.
Proof.
  revert t. induction init as [|k init IH]; intros t Hwf; [done|].
  simpl in *. destruct (t !! k) as [c|] eqn:Ek; [|done]. simpl. rewrite Ek.
  destruct c as [| | | | |sub]; simpl;
    try (by rewrite set_loop_scalar); by rewrite (IH sub Hwf).
Qed.


Lemma get_loop_empty (k : string) (keys : list string) (d : value) :
  get_loop (VDict ∅) (k :: keys) d = Ok d.
Proof. rewrite get_loop_dict. by rewrite lookup_empty. Qed.

(** What [set] does on every input. *)
Lemma set_outcome (t : tree) (p : string) (v : value) :
  set t p v =
    if mappings_or_absent t (init_segments p)
    then Ok (assign t (init_segments p) (final_segment p) v)
    else Raise TypeError.
Proof.
  rewrite set_segments. destruct (mappings_or_absent _ _) eqn:Hwf.
  - by rewrite set_loop_assign.
  - by rewrite set_loop_ill_formed.
Qed.

(** The object the loop of [set] started from is a dictionary when the loop
    is over. *)
Lemma set_loop_dict (t : tree) (init : list string) (final : string) (v c : value) :
  set_loop (VDict t) init final v = Ok c → isinstance_dict c = true.
Proof.
  destruct (mappings_or_absent t init) eqn:Hwf.
  - rewrite set_loop_assign by done. by intros [= <-].
  - by rewrite set_loop_ill_formed.
Qed.



(** ** Construction *)

Section Construction.
Variable w : world.

Let env := load_dotenv w.

Lemma load_env_vars_integer :
  env_layer_loads w = true → Py.returns (_load_env_vars w ∅).
Proof.
  unfold env_layer_loads, integer_env, _load_env_vars.
  intros [Hfile Hint]%andb_prop. apply bool_decide_eq_true in Hfile.
  rewrite Hfile. cbn [bind]. revert Hint.
  destruct (int _); [|done]. destruct (int _); [|done].
  intros _. by eexists.
Qed.

Lemma load_env_vars_returns (base : tree) :
  _load_env_vars w ∅ = Ok base → env_layer_loads w = true.
Proof.
  unfold env_layer_loads, integer_env, _load_env_vars.
  destruct (env_file_error w); [done|]. cbn [bind].
  destruct (int _); [|done]. by destruct (int _).
Qed.


Lemma load_env_vars_region (base : tree) :
  _load_env_vars w ∅ = Ok base →
  ∃ aws, base !! "aws" = Some (VDict aws) ∧
         aws !! "region" = Some (VStr (getenv_or env "AWS_DEFAULT_REGION" "us-east-1")).
Proof.
  unfold _load_env_vars.
  destruct (env_file_error w); [done|]. cbn [bind].
  destruct (int _); [|done]. destruct (int _); [|done].
  intros [= <-]. eexists. split; [|shelve]. unfold update.
  by rewrite lookup_union_l', lookup_insert_eq by (rewrite lookup_insert_eq; eauto).
  Unshelve. by simplify_map_eq.
Qed.

Lemma init_without_file (config_file : option string) :
  match config_file with
  | None => True
  | Some path => open_yaml w path = Missing
  end →
  __init__ w config_file = _load_env_vars w ∅.
Proof.
  unfold __init__, _load_config_file.
  destruct (_load_env_vars w ∅) as [base|e]; [|done].
  destruct config_file as [path|]; [|done]. simpl.
  intros ->. by destruct (String.eqb path "").
Qed.

Lemma init_with_file (path : string) :
  open_yaml w path ≠ Missing →
  __init__ w (Some path) = (base <- _load_env_vars w ∅;; _load_config_file w base path).
Proof.
  unfold __init__, open_yaml. destruct (_load_env_vars w ∅) as [base|e]; [|done].
  simpl. by destruct (String.eqb path "").
Qed.

End Construction.


Lemma get_two_levels (t sub : tree) (x d : value) :
  t !! "aws" = Some (VDict sub) → sub !! "region" = Some x →
  get t "aws.region" d = Ok x.
Proof.
  intros Ht Hsub. unfold get.
  change (split_dot "aws.region") with ["aws"; "region"].
  by rewrite get_loop_dict, Ht, get_loop_dict, Hsub.
Qed.

(** C6, amended: a source path on which [open] raises [FileNotFoundError]
    makes the construction what it is without a source path, its failures
    included: the step is skipped, the outcome is the tree of the
    environment layer. (A path that names nothing because one of its
    directories is a file is not skipped.) *)
Theorem missing_source_skipped (w : world) (path : string) :
  open_yaml w path = Missing →
  __init__ w (Some path) = __init__ w None ∧
  (env_layer_loads w = true →
   ∃ t, __init__ w (Some path) = Ok t ∧ __init__ w None = Ok t).
Proof.
  intros Hmissing.
  rewrite (init_without_file w (Some path)), (init_without_file w None) by done.
  split; [done|]. intros [t Ht]%load_env_vars_integer. eauto.
Qed.


(** C7: the region is the default when the variable is unset, the value of
    the variable when it is set and there is no file, the value of the file
    when the file sets it. *)
Theorem region_precedence (w : world) (c : tree) :
  (load_dotenv w !! "AWS_DEFAULT_REGION" = None →
   __init__ w None = Ok c →
   get c "aws.region" VNone = Ok (VStr "us-east-1")) ∧
  (environ w !! "AWS_DEFAULT_REGION" = Some "eu-west-1" →
   __init__ w None = Ok c →
   get c "aws.region" VNone = Ok (VStr "eu-west-1")) ∧
  (∀ path document aws,
     open_yaml w path = Document (VDict document) →
     document !! "aws" = Some (VDict aws) →
     aws !! "region" = Some (VStr "ap-south-1") →
     __init__ w (Some path) = Ok c →
     get c "aws.region" VNone = Ok (VStr "ap-south-1")).
Proof.
  split_and!.
  - intros Henv. rewrite (init_without_file w None) by done.
    intros (aws & Haws & Hregion)%load_env_vars_region.
    unfold getenv_or in Hregion. rewrite Henv in Hregion.
    by apply (get_two_levels _ aws).
  - intros Henv. rewrite (init_without_file w None) by done.
    intros (aws & Haws & Hregion)%load_env_vars_region.
    assert (load_dotenv w !! "AWS_DEFAULT_REGION" = Some "eu-west-1") as Henv'.
    { unfold load_dotenv. destruct (dotenv w); [|done].
      by apply lookup_union_Some_l. }
    unfold getenv_or in Hregion. rewrite Henv' in Hregion.
    by apply (get_two_levels _ aws).
  - intros path document aws Hdoc Haws Hregion.
    rewrite init_with_file by (by rewrite Hdoc).
    unfold _load_config_file. rewrite Hdoc.
    destruct (_load_env_vars w ∅) as [base|e] eqn:Eenv; [cbn [bind]|done].
    apply load_env_vars_region in Eenv as (aws0 & Haws0 & _).
    destruct (merge_config_spec base document) as (t & Ht & Hat).
    rewrite Ht. intros [= <-].
    specialize (Hat "aws"). unfold merged_at in Hat. rewrite Haws, Haws0 in Hat.
    destruct Hat as (sub & Hsub & Hc).
    destruct (merge_config_spec aws0 aws) as (sub' & Hsub' & Hat').
    assert (sub' = sub) as -> by congruence.
    specialize (Hat' "region"). unfold merged_at in Hat'. rewrite Hregion in Hat'.
    by apply (get_two_levels _ sub).
Qed.

(** ** The credential view *)

Lemma get_value_at (t : tree) (p : string) : get t p VNone = Ok (value_at t p).
Proof. apply get_loop_resolve. Qed.

Lemma aws_config_entries (t : tree) :
  aws_config t =
    Ok (entry "region_name" (value_at t "aws.region")
         (entry "aws_session_token" (value_at t "aws.session_token")
           (entry "aws_secret_access_key" (value_at t "aws.secret_access_key")
             (entry "aws_access_key_id" (value_at t "aws.access_key_id") ∅)))).
Proof.
  unfold aws_config, entry. rewrite !get_value_at. cbn [bind].
  by repeat (destruct (truthy _); cbn [bind]).
Qed.

Lemma lookup_entry (k k' : string) (x : value) (view : tree) :
  entry k x view !! k' =
    if decide (k = k') then (if truthy x then Some x else view !! k') else view !! k'.
Proof.
  unfold entry. destruct (truthy x), (decide (k = k')) as [->|]; try done.
  - apply lookup_insert_eq.
  - by apply lookup_insert_ne.
Qed.

Lemma source_path_elem (k p : string) :
  (k, p) ∈ credential_paths ↔ source_path k = Some p.
Proof.
  unfold source_path. rewrite <-elem_of_list_to_map; [done|].
  by apply (bool_decide_unpack _).
Qed.

Lemma aws_config_lookup (t : tree) :
  ∃ view, aws_config t = Ok view ∧
    ∀ k, view !! k =
      p ← source_path k; (if truthy (value_at t p) then Some (value_at t p) else None).
Proof.
  eexists. split; [apply aws_config_entries|]. intros k.
  rewrite !lookup_entry, lookup_empty. unfold source_path, credential_paths.
  cbn [list_to_map foldr uncurry]. rewrite !lookup_insert, lookup_empty.
  repeat case_decide; subst; simpl; try done; by repeat destruct (truthy _).
Qed.

(** C8: the credential view has at most the four output keys, each holding
    what [get] reads at its source path, and no entry at all for a source
    path that resolves to [None]. *)
Theorem aws_config_view (t : tree) :
  ∃ view, aws_config t = Ok view ∧
    (∀ k, is_Some (view !! k) → k ∈ credential_paths.*1) ∧
    (∀ k x, view !! k = Some x → ∃ p, (k, p) ∈ credential_paths ∧ get t p VNone = Ok x) ∧
    (∀ k p, (k, p) ∈ credential_paths → get t p VNone = Ok VNone → view !! k = None) ∧
    (∀ k, view !! k ≠ Some VNone).
Proof.
  destruct (aws_config_lookup t) as (view & Hview & Hlookup).
  exists view. split_and!; [done|..].
  - intros k [x Hx]. rewrite Hlookup in Hx.
    destruct (source_path k) as [p|] eqn:Ep; [|done].
    apply source_path_elem in Ep. apply list_elem_of_fmap. by exists (k, p).
  - intros k x Hx. rewrite Hlookup in Hx.
    destruct (source_path k) as [p|] eqn:Ep; [simpl in Hx|done].
    exists p. split; [by apply source_path_elem|].
    rewrite get_value_at. destruct (truthy _); by simplify_eq.
  - intros k p Hp%source_path_elem. rewrite get_value_at, Hlookup, Hp.
    intros [= Hx]. simpl. by rewrite Hx.
  - intros k. rewrite Hlookup. destruct (source_path k) as [p|]; [simpl|done].
    destruct (truthy (value_at t p)) eqn:E; [|done]. intros [= Hx].
    by rewrite Hx in E.
Qed.

(** C9: an entry is left out whenever its source value is falsy, the empty
    string as much as [None]. *)
Theorem aws_config_omits_falsy (t : tree) (k p : string) (x : value) :
  (k, p) ∈ credential_paths →
  get t p VNone = Ok x →
  truthy x = false →
  truthy (VStr "") = false ∧
  ∃ view, aws_config t = Ok view ∧ view !! k = None.
Proof.
  intros Hp%source_path_elem Hx Hfalsy. split; [done|].
  destruct (aws_config_lookup t) as (view & Hview & Hlookup).
  exists view. split; [done|]. rewrite Hlookup, Hp. simpl.
  rewrite get_value_at in Hx. simplify_eq. by rewrite Hfalsy.
Qed.

(** ** Which operations can fail *)




(** ** The theorems at work on the sample worlds *)

Example split_examples :
  split_dot "aws.region" = ["aws"; "region"] ∧ split_dot "" = [""] ∧
  split_dot "a..b." = ["a"; ""; "b"; ""].
Proof. repeat split; reflexivity. Qed.

Example int_examples :
  int "30" = Ok 30 ∧ int " -1_000 " = Ok (-1000) ∧ int "007" = Ok 7 ∧
  Py.raises (int "abc") ∧ Py.raises (int "") ∧ Py.raises (int "1__0").
Proof. repeat split; try reflexivity; eexists; reflexivity. Qed.

(** The tests of the repository that need no file. *)
Example test_get_method :
  (c <- __init__ Sample.bare None;; get c "aws.region" VNone) = Ok (VStr "us-east-1") ∧
  (c <- __init__ Sample.bare None;; get c "non.existing.key" (VStr "default"))
    = Ok (VStr "default") ∧
  (c <- __init__ Sample.bare None;; get c "non.existing.key" VNone) = Ok VNone.
Proof. repeat split; vm_compute; reflexivity. Qed.

Example test_init_with_env_vars :
  (c <- __init__ Sample.fixture None;; get c "aws.access_key_id" VNone) = Ok (VStr "test_key") ∧
  (c <- __init__ Sample.fixture None;; get c "aws.secret_access_key" VNone)
    = Ok (VStr "test_secret") ∧
  (c <- __init__ Sample.fixture None;; get c "aws.region" VNone) = Ok (VStr "us-west-2").
Proof. repeat split; vm_compute; reflexivity. Qed.

Example test_set_method :
  (c <- __init__ Sample.bare None;;
   c <- set c "test.nested.value" (VStr "test_value");;
   get c "test.nested.value" VNone) = Ok (VStr "test_value").
Proof. vm_compute; reflexivity. Qed.

Example test_aws_config_property :
  (c <- __init__ Sample.fixture None;; aws_config c)
    = Ok {[ "aws_access_key_id" := VStr "test_key";
            "aws_secret_access_key" := VStr "test_secret";
            "region_name" := VStr "us-west-2" ]}.
Proof. vm_compute; reflexivity. Qed.

Example test_merge_config :
  _merge_config Sample.base_config (VDict Sample.overlay_config)
    = Ok {[ "aws" := VDict {[ "region" := VStr "eu-west-1";
                              "access_key_id" := VStr "base_key" ]};
            "app" := VDict {[ "log_level" := VStr "INFO" ]};
            "new_section" := VDict {[ "new_value" := VStr "test" ]} ]}.
Proof. vm_compute; reflexivity. Qed.



Lemma missing_source_witness :
  open_yaml Sample.bare "missing.yaml" = Missing ∧
  __init__ Sample.bare (Some "missing.yaml") = __init__ Sample.bare None ∧
  (env_layer_loads Sample.bare = true →
   ∃ t, __init__ Sample.bare (Some "missing.yaml") = Ok t ∧ __init__ Sample.bare None = Ok t).
Proof.
  split; [reflexivity|]. apply (missing_source_skipped Sample.bare "missing.yaml").
  reflexivity.
Defined.

(** C6 as it is worded fails for a path that names nothing because one of
    its directories is a file: [open] raises [NotADirectoryError], which
    the construction does not catch, while the construction without a
    source path returns the tree of the defaults. *)
Lemma missing_source_counterexample :
  names_nothing (open_yaml Sample.beside_a_file "notes.txt/config.yaml") = true ∧
  __init__ Sample.beside_a_file None = Ok (Sample.defaults "us-east-1") ∧
  __init__ Sample.beside_a_file (Some "notes.txt/config.yaml")
    = Raise (OSError "NotADirectoryError").
Proof. repeat split; vm_compute; reflexivity. Qed.



Example init_samples :
  __init__ Sample.bare None = Ok (Sample.defaults "us-east-1") ∧
  __init__ Sample.regions None = Ok (Sample.defaults "eu-west-1") ∧
  __init__ Sample.regions (Some "config.yaml") = Ok (Sample.defaults "ap-south-1").
Proof. repeat split; vm_compute; reflexivity. Qed.

Lemma region_precedence_witness :
  (load_dotenv Sample.bare !! "AWS_DEFAULT_REGION" = None ∧
   __init__ Sample.bare None = Ok (Sample.defaults "us-east-1") ∧
   get (Sample.defaults "us-east-1") "aws.region" VNone = Ok (VStr "us-east-1")) ∧
  (environ Sample.regions !! "AWS_DEFAULT_REGION" = Some "eu-west-1" ∧
   __init__ Sample.regions None = Ok (Sample.defaults "eu-west-1") ∧
   get (Sample.defaults "eu-west-1") "aws.region" VNone = Ok (VStr "eu-west-1")) ∧
  (open_yaml Sample.regions "config.yaml"
     = Document (VDict {[ "aws" := VDict {[ "region" := VStr "ap-south-1" ]} ]}) ∧
   __init__ Sample.regions (Some "config.yaml") = Ok (Sample.defaults "ap-south-1") ∧
   get (Sample.defaults "ap-south-1") "aws.region" VNone = Ok (VStr "ap-south-1")).
Proof.
  destruct init_samples as (Hbare & Henv & Hfile).
  split; [|split].
  - split; [reflexivity|]. split; [exact Hbare|].
    apply (proj1 (region_precedence Sample.bare _)); [reflexivity|exact Hbare].
  - split; [reflexivity|]. split; [exact Henv|].
    apply (proj1 (proj2 (region_precedence Sample.regions _))); [reflexivity|exact Henv].
  - split; [reflexivity|]. split; [exact Hfile|].
    apply (proj2 (proj2 (region_precedence Sample.regions _)) "config.yaml"
             {[ "aws" := VDict {[ "region" := VStr "ap-south-1" ]} ]}
             {[ "region" := VStr "ap-south-1" ]});
      [reflexivity|reflexivity|reflexivity|exact Hfile].
Defined.

(** The entries of the sample tree: a key, an empty secret, a null token, a
    region. *)
Lemma aws_config_view_witness :
  get Sample.keyed "aws.session_token" VNone = Ok VNone ∧
  ∃ view, aws_config Sample.keyed = Ok view ∧
          view !! "aws_session_token" = None ∧
          view !! "region_name" = Some (VStr "us-west-2").
Proof.
  split; [reflexivity|].
  destruct (aws_config_view Sample.keyed) as (view & Hview & _ & _ & Hnull & _).
  exists view. split; [exact Hview|]. split.
  - apply (Hnull _ "aws.session_token"); [|reflexivity].
    apply source_path_elem. reflexivity.
  - apply (f_equal (λ r, match r with Ok m => m !! "region_name" | _ => None end)) in Hview.
    symmetry. exact Hview.
Defined.

Lemma aws_config_omits_falsy_witness :
  get Sample.keyed "aws.secret_access_key" VNone = Ok (VStr "") ∧
  truthy (VStr "") = false ∧
  ∃ view, aws_config Sample.keyed = Ok view ∧ view !! "aws_secret_access_key" = None.
Proof.
  split; [reflexivity|].
  apply (aws_config_omits_falsy Sample.keyed "aws_secret_access_key"
           "aws.secret_access_key" (VStr "")); [|reflexivity|reflexivity].
  apply source_path_elem. reflexivity.
Defined.



(** ** Dot-paths compose *)

Lemma split_dot_join (p q : string) :
  split_dot (p +:+ "." +:+ q) = (split_dot p ++ split_dot q)%list.
Proof.
  induction p as [|c p IH]; [done|].
  change (String c p +:+ "." +:+ q) with (String c (p +:+ "." +:+ q)).
  cbn [split_dot]. rewrite IH. destruct (Ascii.eqb c "."); [done|].
  pose proof (split_dot_nonempty p). by destruct (split_dot p).
Qed.

Lemma resolve_app (v : value) (l1 l2 : list string) :
  resolve v (l1 ++ l2)%list = resolve v l1 ≫= λ v', resolve v' l2.
Proof.
  revert v. induction l1 as [|k l1 IH]; intros v; [done|].
  cbn [app resolve]. destruct v as [| | | | |m]; try done.
  destruct (m !! k) as [v'|]; [apply IH|done].
Qed.

Lemma get_loop_app (v : value) (l1 l2 : list string) (d : value) :
  get_loop v (l1 ++ l2)%list d =
    match resolve v l1 with
    | Some v' => get_loop v' l2 d
    | None => Ok d
    end.
Proof.
  rewrite !get_loop_resolve, resolve_app.
  destruct (resolve v l1) as [v'|]; [|done]. simpl. by rewrite get_loop_resolve.
Qed.

(** X1: reading [p.q] is reading [q] in the mapping that [p] addresses, and
    the default when [p] addresses no mapping. *)
Theorem get_dotted (t : tree) (p q : string) (d : value) :
  get t (p +:+ "." +:+ q) d =
    match addressed t p with
    | Some (VDict m) => get m q d
    | _ => Ok d
    end.
Proof.
  unfold get, addressed. rewrite split_dot_join, get_loop_app.
  destruct (resolve (VDict t) (split_dot p)) as [v|]; [|done].
  destruct v; try done;
    pose proof (split_dot_nonempty q); by destruct (split_dot q).
Qed.

(** ** More on set *)

Lemma resolve_assign (t : tree) (init : list string) (final : string) (v : value) :
  resolve (VDict (assign t init final v)) (init ++ [final])%list = Some v.
Proof.
  revert t. induction init as [|k init IH]; intros t; cbn [app resolve assign].
  - by rewrite lookup_insert_eq.
  - destruct (t !! k) as [[| | | | |sub]|]; rewrite lookup_insert_eq; apply IH.
Qed.

(** X2: after [set(p, v)], a path that runs through [p] reads inside [v]:
    [p.q] reads [q] in [v] when [v] is a mapping and the default when it is
    not, whatever was below [p] before. *)
Theorem set_read_through (t : tree) (p : string) (v : value) :
  mappings_or_absent t (init_segments p) = true →
  ∃ t', set t p v = Ok t' ∧
        ∀ q d, get t' (p +:+ "." +:+ q) d =
                 match v with
                 | VDict m => get m q d
                 | _ => Ok d
                 end.
Proof.
  intros Hwf. rewrite set_outcome, Hwf. eexists. split; [done|]. intros q d.
  unfold get. rewrite split_dot_join, get_loop_app, (segments_split p), resolve_assign.
  destruct v; try done;
    pose proof (split_dot_nonempty q); by destruct (split_dot q).
Qed.

Lemma assign_assign (t : tree) (init : list string) (final : string) (v1 v2 : value) :
  assign (assign t init final v1) init final v2 = assign t init final v2.
Proof.
  revert t. induction init as [|k init IH]; intros t; cbn [assign].
  - apply insert_insert_eq.
  - destruct (t !! k) as [[| | | | |sub]|];
      rewrite lookup_insert_eq, insert_insert_eq; by rewrite IH.
Qed.

Lemma mappings_or_absent_assign
    (t : tree) (init : list string) (final : string) (v : value) :
  mappings_or_absent (assign t init final v) init = true.
Proof.
  revert t. induction init as [|k init IH]; intros t; [done|]. cbn [assign mappings_or_absent].
  destruct (t !! k) as [[| | | | |sub]|]; rewrite lookup_insert_eq; apply IH.
Qed.

(** X3: of two writes to one path the last one wins: the tree is the one
    the second write alone gives. *)
Theorem set_twice (t : tree) (p : string) (v1 v2 : value) :
  mappings_or_absent t (init_segments p) = true →
  ∃ t1 t2, set t p v1 = Ok t1 ∧ set t1 p v2 = Ok t2 ∧ set t p v2 = Ok t2.
Proof.
  intros Hwf.
  exists (assign t (init_segments p) (final_segment p) v1),
         (assign t (init_segments p) (final_segment p) v2).
  by rewrite !set_outcome, Hwf, mappings_or_absent_assign, assign_assign.
Qed.

Lemma split_dot_dotless (k : string) : dotless k = true → split_dot k = [k].
Proof.
  induction k as [|c k IH]; [done|]. cbn [dotless split_dot].
  destruct (Ascii.eqb c "."); [done|]. intros Hk. by rewrite (IH Hk).
Qed.

(** The segments joined by dots are the path that [split] cuts back into
    them. *)
Lemma split_dot_concat (ks : list string) :
  ks ≠ [] → Forall (λ k, dotless k = true) ks →
  split_dot (String.concat "." ks) = ks.
Proof.
  induction ks as [|k ks IH]; [done|]. intros _ [Hk Hks]%Forall_cons.
  destruct ks as [|k' ks]; [by apply split_dot_dotless|].
  change (String.concat "." (k :: k' :: ks))
    with (k +:+ "." +:+ String.concat "." (k' :: ks)).
  by rewrite split_dot_join, split_dot_dotless, IH.
Qed.

(** C3: [get] never raises, whatever the path. On the path written by
    joining the segments [ks] with dots it walks the tree one segment at a
    time: it returns the value found when every segment is found in the
    mapping that the segments before it lead to, and the default as soon
    as a segment is missing from that mapping or has to be looked up in
    something that is not a mapping. *)
Theorem get_total_default (t : tree) (ks : list string) (d : value) :
  ks ≠ [] → Forall (λ k, dotless k = true) ks →
  (∀ p, Py.returns (get t p d)) ∧
  (∀ v, resolve (VDict t) ks = Some v → get t (String.concat "." ks) d = Ok v) ∧
  (∀ pre k post m,
     ks = (pre ++ k :: post)%list →
     resolve (VDict t) pre = Some (VDict m) → m !! k = None →
     get t (String.concat "." ks) d = Ok d) ∧
  (∀ pre k post v,
     ks = (pre ++ k :: post)%list →
     resolve (VDict t) pre = Some v → isinstance_dict v = false →
     get t (String.concat "." ks) d = Ok d).
Proof.
  intros Hks Hdots. unfold get. rewrite split_dot_concat by done. split_and!.
  - intros p. rewrite get_loop_resolve. by eexists.
  - intros v Hv. by rewrite get_loop_resolve, Hv.
  - intros pre k post m -> Hpre Hk.
    rewrite get_loop_resolve, resolve_app, Hpre. simpl. by rewrite Hk.
  - intros pre k post v -> Hpre Hv.
    rewrite get_loop_resolve, resolve_app, Hpre. simpl. by destruct v.
Qed.

(** The region of the sample tree, a path that runs through it, a path
    through a section that is not there. *)
Lemma get_total_default_witness :
  String.concat "." ["aws"; "region"] = "aws.region" ∧
  get Sample.keyed "aws.region" (VStr "d") = Ok (VStr "us-west-2") ∧
  get Sample.keyed "aws.region.zone" (VStr "d") = Ok (VStr "d") ∧
  get Sample.keyed "ec2.key_pair_name" (VStr "d") = Ok (VStr "d").
Proof.
  split; [reflexivity|]. split; [|split].
  - apply (proj1 (proj2 (get_total_default Sample.keyed ["aws"; "region"] (VStr "d")
                           ltac:(discriminate) ltac:(repeat constructor)))).
    reflexivity.
  - apply (proj2 (proj2 (proj2 (get_total_default Sample.keyed ["aws"; "region"; "zone"]
                                  (VStr "d") ltac:(discriminate) ltac:(repeat constructor))))
             ["aws"; "region"] "zone" [] (VStr "us-west-2")); reflexivity.
  - apply (proj1 (proj2 (proj2 (get_total_default Sample.keyed ["ec2"; "key_pair_name"]
                                  (VStr "d") ltac:(discriminate) ltac:(repeat constructor))))
             [] "ec2" ["key_pair_name"] Sample.keyed); reflexivity.
Defined.

(** X5: a key without a dot, the empty key included, is a plain dictionary
    key: [get] is the lookup with a default, [set] the insertion, and [set]
    cannot fail. *)
Theorem dotless_key (t : tree) (k : string) (v d : value) :
  dotless k = true →
  get t k d = Ok (default d (t !! k)) ∧ set t k v = Ok (<[k := v]> t).
Proof.
  intros Hk. unfold get, set. rewrite (split_dot_dotless k Hk). split.
  - rewrite get_loop_dict. by destruct (t !! k).
  - done.
Qed.

(** ** More on _merge_config *)

(** X6: an empty dictionary is neutral on either side: merging it in
    changes nothing, merging into it gives the overlay. *)
Theorem merge_config_empty (A : tree) :
  _merge_config A (VDict ∅) = Ok A ∧ _merge_config ∅ (VDict A) = Ok A.
Proof.
  split; [done|].
  destruct (merge_config_spec ∅ A) as (t & -> & Ht). f_equal. apply map_eq. intros k.
  specialize (Ht k). unfold merged_at in Ht. rewrite lookup_empty in Ht.
  by destruct (A !! k) as [[| | | | |b]|].
Qed.

Lemma merge_config_keys (A B : tree) :
  ∃ M, _merge_config A (VDict B) = Ok M ∧ dom M = dom A ∪ dom B.
Proof.
  destruct (merge_config_spec A B) as (M & HM & Hat). exists M. split; [done|].
  apply set_eq. intros k. rewrite elem_of_union, !elem_of_dom.
  specialize (Hat k). unfold merged_at in Hat.
  destruct (B !! k) as [[| | | | |b]|] eqn:EB.
  1-5: rewrite Hat; split; eauto.
  - destruct (A !! k) as [[| | | | |a]|] eqn:EA.
    6: destruct Hat as (sub & _ & Hat).
    all: rewrite Hat; split; eauto.
  - rewrite Hat. split; [eauto|]. intros [?|[? [=]]]; done.
Qed.

(** X7: the merge never drops a key: the keys of the result are those of
    the base and those of the overlay. *)
Theorem merge_config_dom (A B : tree) :
  ∃ M, _merge_config A (VDict B) = Ok M ∧ dom M = dom A ∪ dom B.
Proof. apply merge_config_keys. Qed.

Lemma merge_config_self_bounded (n : nat) (B : tree) :
  (weight (VDict B) < n)%nat → _merge_config B (VDict B) = Ok B.
Proof.
  revert B. induction n as [|n IH]; intros B Hn; [lia|].
  destruct (merge_config_spec B B) as (t & -> & Ht). f_equal. apply map_eq. intros k.
  specialize (Ht k). unfold merged_at in Ht.
  destruct (B !! k) as [[| | | | |b]|] eqn:EB; try done.
  destruct Ht as (sub & Hsub & ->). rewrite IH in Hsub; [by simplify_eq|].
  apply weight_item in EB. lia.
Qed.

Lemma merge_config_self (B : tree) : _merge_config B (VDict B) = Ok B.
Proof. apply (merge_config_self_bounded (S (weight (VDict B)))). lia. Qed.

Lemma merge_config_twice_bounded (n : nat) (A B M : tree) :
  (weight (VDict B) < n)%nat →
  _merge_config A (VDict B) = Ok M → _merge_config M (VDict B) = Ok M.
Proof.
  revert A B M. induction n as [|n IH]; intros A B M Hn HM; [lia|].
  destruct (merge_config_spec A B) as (M0 & HM0 & Hat).
  assert (M0 = M) as -> by congruence.
  destruct (merge_config_spec M B) as (t & -> & Ht). f_equal. apply map_eq. intros k.
  specialize (Ht k). specialize (Hat k). unfold merged_at in Ht, Hat.
  destruct (B !! k) as [[| | | | |b]|] eqn:EB; try congruence.
  assert (weight (VDict b) < n)%nat as Hb by (apply weight_item in EB; lia).
  destruct (A !! k) as [[| | | | |a]|] eqn:EA.
  6: { destruct Hat as (sub & Hsub & Hat). rewrite Hat in Ht.
       destruct Ht as (sub' & Hsub' & ->).
       rewrite (IH a b sub Hb Hsub) in Hsub'. by simplify_eq. }
  all: rewrite Hat in Ht; destruct Ht as (sub' & Hsub' & ->);
       rewrite merge_config_self in Hsub'; by simplify_eq.
Qed.

(** X8: merging the same overlay a second time changes nothing. *)
Theorem merge_config_idempotent (A B : tree) :
  ∃ M, _merge_config A (VDict B) = Ok M ∧ _merge_config M (VDict B) = Ok M.
Proof.
  destruct (merge_config_spec A B) as (M & HM & _). exists M. split; [done|].
  apply (merge_config_twice_bounded (S (weight (VDict B))) A); [lia|done].
Qed.

Lemma merge_overlay_leaf (path : list string) :
  ∀ (A B M : tree) (v : value),
    resolve (VDict B) path = Some v → isinstance_dict v = false →
    _merge_config A (VDict B) = Ok M →
    resolve (VDict M) path = Some v.
Proof.
  induction path as [|k path IH]; intros A B M v HB Hv HM.
  { simpl in HB. by simplify_eq. }
  destruct (merge_config_spec A B) as (M0 & HM0 & Hat).
  assert (M0 = M) as -> by congruence.
  specialize (Hat k). unfold merged_at in Hat. cbn [resolve] in *.
  destruct (B !! k) as [x|] eqn:EB; [simpl in HB|done].
  destruct x as [| | | | |b];
    try (rewrite Hat; simpl; destruct path; by simplify_eq).
  destruct (A !! k) as [[| | | | |a]|] eqn:EA.
  6: { destruct Hat as (sub & Hsub & ->). simpl. by apply (IH a b). }
  all: by rewrite Hat.
Qed.

(** X9: the overlay wins at every depth: a path that the overlay resolves
    to a value that is not a mapping reads that value in the merged tree,
    whatever the base holds there. *)
Theorem merge_overlay_wins (A B : tree) (p : string) (v d : value) :
  addressed B p = Some v → isinstance_dict v = false →
  ∃ M, _merge_config A (VDict B) = Ok M ∧ get M p d = Ok v.
Proof.
  intros HB Hv. destruct (merge_config_spec A B) as (M & HM & _).
  exists M. split; [done|]. unfold get. rewrite get_loop_resolve.
  by rewrite (merge_overlay_leaf _ A B M v HB Hv HM).
Qed.

Lemma missing_in_resolve (path : list string) (b : tree) :
  missing_in b path = true → resolve (VDict b) path = None.
Proof.
  revert b. induction path as [|k path IH]; intros b Hb; [done|].
  cbn [resolve missing_in] in *.
  destruct (b !! k) as [[| | | | |b']|]; try done. simpl. by apply IH.
Qed.

Lemma resolve_scalar (v : value) (k : string) (path : list string) :
  isinstance_dict v = false → resolve v (k :: path) = None.
Proof. by destruct v. Qed.

Lemma merge_base_kept (path : list string) :
  ∀ (A B M : tree),
    missing_in B path = true → _merge_config A (VDict B) = Ok M →
    resolve (VDict M) path = resolve (VDict A) path.
Proof.
  induction path as [|k path IH]; intros A B M HB HM; [done|].
  destruct (merge_config_spec A B) as (M0 & HM0 & Hat).
  assert (M0 = M) as -> by congruence.
  specialize (Hat k). unfold merged_at in Hat. cbn [resolve missing_in] in *.
  destruct (B !! k) as [[| | | | |b]|] eqn:EB; try done; [|by rewrite Hat].
  destruct (A !! k) as [[| | | | |a]|] eqn:EA.
  6: { destruct Hat as (sub & Hsub & ->). simpl. by apply (IH a b). }
  all: rewrite Hat; simpl; rewrite (missing_in_resolve path b HB);
       destruct path as [|k' path]; done.
Qed.

(** X10: what the overlay says nothing about is kept at every depth: a path
    along which a mapping of the overlay lacks the next segment reads in the
    merged tree what it read in the base. *)
Theorem merge_base_survives (A B : tree) (p : string) (d : value) :
  missing_in B (split_dot p) = true →
  ∃ M, _merge_config A (VDict B) = Ok M ∧ get M p d = get A p d.
Proof.
  intros HB. destruct (merge_config_spec A B) as (M & HM & _).
  exists M. split; [done|]. unfold get. rewrite !get_loop_resolve.
  by rewrite (merge_base_kept _ A B M HB HM).
Qed.

(** ** The environment layer, path by path *)

Lemma int_ok (s : string) (z : Z) : int s = Ok z → int_literal s = Some z.
Proof.
  unfold int. destruct (over_limit s); [done|].
  destruct (int_literal s); [|done]. by intros [= ->].
Qed.

Lemma load_env_vars_tree (w : world) (c : tree) :
  _load_env_vars w ∅ = Ok c →
  ∃ timeout memory_size,
    int_literal (getenv_or (load_dotenv w) "LAMBDA_TIMEOUT" "30") = Some timeout ∧
    int_literal (getenv_or (load_dotenv w) "LAMBDA_MEMORY_SIZE" "128") = Some memory_size ∧
    c = env_tree (load_dotenv w) timeout memory_size.
Proof.
  unfold _load_env_vars, update.
  destruct (env_file_error w); [done|]. cbn [bind].
  destruct (int (getenv_or _ "LAMBDA_TIMEOUT" _)) as [z1|] eqn:E1; [|done].
  destruct (int (getenv_or _ "LAMBDA_MEMORY_SIZE" _)) as [z2|] eqn:E2; [|done].
  intros [= <-]. exists z1, z2. split_and!; [by apply int_ok..|].
  by rewrite (right_id_L ∅ (∪)).
Qed.

Lemma env_tree_strings (env : gmap string string) (z1 z2 : Z) (d : value) :
  ∀ path var default, (path, var, default) ∈ env_strings →
    get (env_tree env z1 z2) path d = Ok (VStr (getenv_or env var default)).
Proof.
  intros path var default. unfold env_strings.
  rewrite !elem_of_cons, elem_of_nil.
  intros [?|[?|[?|[?|[?|[?|[]]]]]]]; simplify_eq; by vm_compute.
Qed.

(** X11: without a file every path of the environment layer is present and
    holds the value of its variable, or its default when the variable is
    unset, or [None] for the variables that have no default; the default
    passed to [get] is never returned for these paths. *)
Theorem env_layer_table (w : world) (c : tree) (d : value) :
  __init__ w None = Ok c →
  (∀ path var default, (path, var, default) ∈ env_strings →
     get c path d = Ok (VStr (getenv_or (load_dotenv w) var default))) ∧
  (∀ path var, (path, var) ∈ env_optionals →
     get c path d = Ok (getenv (load_dotenv w) var)) ∧
  (∀ path var default, (path, var, default) ∈ env_integers →
     ∃ z, int_literal (getenv_or (load_dotenv w) var default) = Some z ∧
          get c path d = Ok (VInt z)) ∧
  get c "app.debug" d
    = Ok (VBool (String.eqb (lower (getenv_or (load_dotenv w) "DEBUG" "false")) "true")).
Proof.
  rewrite (init_without_file w None I).
  intros (z1 & z2 & Hz1 & Hz2 & ->)%load_env_vars_tree. split_and!.
  - apply env_tree_strings.
  - intros path var. unfold env_optionals.
    rewrite !elem_of_cons, elem_of_nil.
    intros [?|[?|[?|[?|[]]]]]; simplify_eq; by vm_compute.
  - intros path var default. unfold env_integers.
    rewrite !elem_of_cons, elem_of_nil.
    intros [?|[?|[]]]; simplify_eq; eexists; (split; [eassumption|by vm_compute]).
  - by vm_compute.
Qed.

Lemma lower_char_letter (c x : ascii) :
  x ∈ ["t"; "r"; "u"; "e"]%char →
  lower_char c = x → c = x ∨ c = ascii_of_nat (nat_of_ascii x - 32).
Proof.
  rewrite !elem_of_cons, elem_of_nil. intros [->|[->|[->|[->|[]]]]];
    destruct c as [[] [] [] [] [] [] [] []]; vm_compute; intros [=]; auto.
Qed.

Lemma lower_true (s : string) : lower s = "true" ↔ s ∈ true_spellings.
Proof.
  split.
  - destruct s as [|c1 [|c2 [|c3 [|c4 [|c5 s]]]]]; try done.
    cbn [lower]. intros [= H1 H2 H3 H4].
    destruct (lower_char_letter c1 "t" ltac:(set_solver) H1) as [->| ->];
    destruct (lower_char_letter c2 "r" ltac:(set_solver) H2) as [->| ->];
    destruct (lower_char_letter c3 "u" ltac:(set_solver) H3) as [->| ->];
    destruct (lower_char_letter c4 "e" ltac:(set_solver) H4) as [->| ->];
      vm_compute; set_solver.
  - unfold true_spellings. rewrite !elem_of_cons, elem_of_nil.
    intros H. repeat (destruct H as [->|H]; [done|]). done.
Qed.

(** X12: the debug flag is on exactly when [DEBUG] is set to [true] in some
    mix of upper and lower case; [1], [yes] or [on] leave it off. *)
Theorem debug_flag (w : world) (c : tree) (d : value) :
  __init__ w None = Ok c →
  (get c "app.debug" d = Ok (VBool true) ↔
   ∃ s, load_dotenv w !! "DEBUG" = Some s ∧ s ∈ true_spellings) ∧
  (get c "app.debug" d = Ok (VBool true) ∨ get c "app.debug" d = Ok (VBool false)).
Proof.
  rewrite (init_without_file w None I).
  intros (z1 & z2 & Hz1 & Hz2 & ->)%load_env_vars_tree.
  assert (get (env_tree (load_dotenv w) z1 z2) "app.debug" d
          = Ok (VBool (String.eqb (lower (getenv_or (load_dotenv w) "DEBUG" "false")) "true")))
    as -> by (by vm_compute).
  split; [|by destruct (String.eqb _ _); auto].
  unfold getenv_or. destruct (load_dotenv w !! "DEBUG") as [s|].
  - split.
    + intros [= H%String.eqb_eq]. exists s. split; [done|]. by apply lower_true.
    + intros (s' & [= <-] & Hs%lower_true). by rewrite Hs.
  - split; [done|]. by intros (s & [=] & _).
Qed.

(** ** Construction, whatever the file *)

Lemma run_digits_length (after_digit : bool) (s : string) (n : nat) :
  run_digits after_digit s = Some n → (n ≤ String.length s)%nat.
Proof.
  revert after_digit n. induction s as [|c s IH]; intros after_digit n; simpl.
  - destruct after_digit; intros [= <-]; lia.
  - destruct (Ascii.eqb c "_").
    + destruct after_digit; [|done]. intros H%IH. lia.
    + destruct (digit c).
      * destruct (run_digits true s) as [m|] eqn:E; simpl; [|done].
        intros [= <-]. apply IH in E. lia.
      * destruct after_digit; intros [= <-]; lia.
Qed.

Lemma lstrip_length (s : string) : (String.length (lstrip s) ≤ String.length s)%nat.
Proof. induction s as [|c s IH]; simpl; [lia|]. destruct (is_space c); simpl; lia. Qed.

Lemma unsigned_length (s : string) : (String.length (unsigned s) ≤ String.length s)%nat.
Proof.
  unfold unsigned. pose proof (lstrip_length s) as H.
  destruct (lstrip s) as [|[b0 b1 b2 b3 b4 b5 b6 b7] r]; simpl in *; [lia|].
  destruct b0, b1, b2, b3, b4, b5, b6, b7; simpl; lia.
Qed.

(** On plain text the limit on digits is out of reach. *)
Lemma int_plain (s : string) :
  plain s = true →
  int s = match int_literal s with
          | Some z => Ok z
          | None => Raise (invalid_literal s)
          end.
Proof.
  unfold plain. intros [_ Hlen%Nat.leb_le]%andb_prop. unfold int, over_limit.
  destruct (run_digits false (unsigned s)) as [n|] eqn:E; [|done].
  apply run_digits_length in E. pose proof (unsigned_length s).
  destruct (max_str_digits <? n)%nat eqn:El; [|done].
  apply Nat.ltb_lt in El. unfold max_str_digits in El. lia.
Qed.

(** X13: a [LAMBDA_TIMEOUT] or [LAMBDA_MEMORY_SIZE] of plain text that is
    not an integer literal makes every construction fail with the
    [ValueError] of [int], whose message shows the text as [repr] does,
    with or without a file and whatever the file holds: the file is not
    even opened. *)
Theorem integer_env_required (w : world) (config_file : option string) :
  env_file_error w = None →
  plain (getenv_or (load_dotenv w) "LAMBDA_TIMEOUT" "30") = true →
  plain (getenv_or (load_dotenv w) "LAMBDA_MEMORY_SIZE" "128") = true →
  integer_env w = false →
  ∃ var default,
    (var, default) ∈ [("LAMBDA_TIMEOUT", "30"); ("LAMBDA_MEMORY_SIZE", "128")] ∧
    int_literal (getenv_or (load_dotenv w) var default) = None ∧
    __init__ w config_file =
      Raise (ValueError ("invalid literal for int() with base 10: "
                         +:+ str_take 200 (repr (getenv_or (load_dotenv w) var default)))).
Proof.
  intros Hfile H1 H2. unfold integer_env, __init__, _load_env_vars.
  rewrite Hfile, (int_plain _ H1), (int_plain _ H2). cbn [bind].
  destruct (int_literal (getenv_or _ "LAMBDA_TIMEOUT" _)) eqn:E1.
  - destruct (int_literal (getenv_or _ "LAMBDA_MEMORY_SIZE" _)) eqn:E2; [done|].
    intros _. exists "LAMBDA_MEMORY_SIZE", "128". split_and!; [set_solver|done..].
  - intros _. exists "LAMBDA_TIMEOUT", "30". split_and!; [set_solver|done..].
Qed.

Lemma env_tree_sections (env : gmap string string) (z1 z2 : Z) (k : string) :
  k ∈ sections → ∃ sub, env_tree env z1 z2 !! k = Some (VDict sub).
Proof.
  unfold sections. rewrite !elem_of_cons, elem_of_nil.
  intros [->|[->|[->|[->|[->|[]]]]]]; eexists; by vm_compute.
Qed.

Lemma env_tree_dom (env : gmap string string) (z1 z2 : Z) :
  dom (env_tree env z1 z2) = list_to_set sections.
Proof.
  unfold env_tree, sections. rewrite !dom_insert_L, dom_singleton_L. simpl. set_solver.
Qed.

(** X14: a constructed configuration always has the five sections [aws],
    [app], [s3], [ec2] and [lambda] at its top level: the file can add
    sections but removes none; without a file these five are all there is
    and each is a mapping. *)
Theorem sections_present (w : world) (config_file : option string) (c : tree) :
  __init__ w config_file = Ok c →
  (∀ k, k ∈ sections → is_Some (c !! k)) ∧
  (config_file = None →
   dom c = list_to_set sections ∧
   ∀ k, k ∈ sections → ∃ sub, c !! k = Some (VDict sub)).
Proof.
  intros Hc. split.
  - intros k Hk. unfold __init__ in Hc.
    destruct (_load_env_vars w ∅) as [base|e] eqn:Ebase; [|done].
    apply load_env_vars_tree in Ebase as (z1 & z2 & _ & _ & ->).
    destruct (env_tree_sections (load_dotenv w) z1 z2 k Hk) as [sub Hsub].
    cbn [bind] in Hc.
    assert (is_Some (env_tree (load_dotenv w) z1 z2 !! k)) as Henv by (by eexists).
    destruct config_file as [path|]; [|by simplify_eq].
    destruct (String.eqb path ""); [by simplify_eq|].
    unfold _load_config_file in Hc.
    destruct (open_yaml w path) as [|kind|diagnostic|document]; simplify_eq; [done|].
    destruct document as [| | | | |items]; try done.
    destruct (merge_config_keys (env_tree (load_dotenv w) z1 z2) items)
      as (M & HM & Hdom).
    assert (M = c) as -> by congruence.
    apply elem_of_dom. rewrite Hdom. apply elem_of_union_l, elem_of_dom. by eexists.
  - intros ->. rewrite (init_without_file w None I) in Hc.
    apply load_env_vars_tree in Hc as (z1 & z2 & _ & _ & ->).
    split; [apply env_tree_dom|apply env_tree_sections].
Qed.

(** X15: with a file that parses to a mapping the configuration is the one
    built without the file, except where the file speaks: a path that the
    file resolves to a value that is not a mapping reads that value, a
    path the file says nothing about reads what the environment layer
    gives. *)
Theorem file_overlay_precedence
    (w : world) (path : string) (document base : tree) (p : string) (d : value) :
  open_yaml w path = Document (VDict document) →
  __init__ w None = Ok base →
  ∃ c, __init__ w (Some path) = Ok c ∧
       (∀ v, addressed document p = Some v → isinstance_dict v = false →
             get c p d = Ok v) ∧
       (missing_in document (split_dot p) = true → get c p d = get base p d).
Proof.
  intros Hdoc Hbase. rewrite (init_without_file w None I) in Hbase.
  rewrite init_with_file, Hbase by (by rewrite Hdoc). cbn [bind].
  unfold _load_config_file. rewrite Hdoc.
  destruct (merge_config_spec base document) as (c & Hc & _).
  exists c. split; [done|]. unfold get. rewrite !get_loop_resolve. split.
  - intros v Hv Hleaf. by rewrite (merge_overlay_leaf _ base document c v Hv Hleaf Hc).
  - intros Hmiss. by rewrite (merge_base_kept _ base document c Hmiss Hc).
Qed.

Lemma value_at_aws (t : tree) (x : value) (leaf : string) :
  t !! "aws" = Some x → isinstance_dict x = false →
  dotless leaf = true → value_at t ("aws." +:+ leaf) = VNone.
Proof.
  intros Ht Hx Hleaf. unfold value_at, addressed.
  change ("aws." +:+ leaf) with ("aws" +:+ "." +:+ leaf).
  rewrite split_dot_join, (split_dot_dotless leaf Hleaf).
  change (split_dot "aws") with ["aws"]. cbn [app resolve]. rewrite Ht. simpl.
  by destruct x.
Qed.

(** X16: a file whose [aws] entry is not a mapping ([aws:] with nothing
    under it parses to [None]) wipes the whole section: every [aws.*] path
    reads the default and the credential view is empty, region included. *)
Theorem aws_section_replaced
    (w : world) (path : string) (document : tree) (x : value) (c : tree) :
  open_yaml w path = Document (VDict document) →
  document !! "aws" = Some x → isinstance_dict x = false →
  __init__ w (Some path) = Ok c →
  c !! "aws" = Some x ∧
  (∀ q d, get c ("aws." +:+ q) d = Ok d) ∧
  aws_config c = Ok ∅.
Proof.
  intros Hdoc Hx Hleaf. rewrite init_with_file by (by rewrite Hdoc).
  destruct (_load_env_vars w ∅) as [base|e]; [cbn [bind]|done].
  unfold _load_config_file. rewrite Hdoc. intros Hc.
  assert (c !! "aws" = Some x) as Haws.
  { assert (resolve (VDict document) ["aws"] = Some x) as Hr.
    { cbn [resolve]. by rewrite Hx. }
    pose proof (merge_overlay_leaf _ base document c x Hr Hleaf Hc) as H.
    cbn [resolve] in H. by destruct (c !! "aws"). }
  split; [done|]. split.
  - intros q d. unfold get.
    change ("aws." +:+ q) with ("aws" +:+ "." +:+ q).
    rewrite split_dot_join, get_loop_app.
    change (split_dot "aws") with ["aws"]. cbn [resolve]. rewrite Haws. simpl.
    pose proof (split_dot_nonempty q). destruct (split_dot q); [done|].
    by rewrite get_loop_scalar.
  - rewrite aws_config_entries.
    rewrite
      (value_at_aws c x "region" Haws Hleaf eq_refl
         : value_at c "aws.region" = VNone),
      (value_at_aws c x "session_token" Haws Hleaf eq_refl
         : value_at c "aws.session_token" = VNone),
      (value_at_aws c x "secret_access_key" Haws Hleaf eq_refl
         : value_at c "aws.secret_access_key" = VNone),
      (value_at_aws c x "access_key_id" Haws Hleaf eq_refl
         : value_at c "aws.access_key_id" = VNone).
    done.
Qed.

(** What the view makes of a variable: nothing when it is unset or empty. *)
Lemma entry_getenv (env : gmap string string) (var k k' : string) (view : tree) :
  entry k (getenv env var) view !! k' =
    if decide (k = k')
    then match env !! var with
         | Some s => if String.eqb s "" then view !! k' else Some (VStr s)
         | None => view !! k'
         end
    else view !! k'.
Proof.
  rewrite lookup_entry. case_decide; [|done]. unfold getenv.
  destruct (env !! var) as [s|]; [|done]. simpl. by destruct (String.eqb s "").
Qed.

(** X17: without a file the credential view follows the environment: the
    region is the value of [AWS_DEFAULT_REGION], [us-east-1] when it is
    unset and no entry at all when it is set to the empty string; key,
    secret and token are there exactly when their variable is set and not
    empty. *)
Theorem aws_config_from_env (w : world) (c : tree) :
  __init__ w None = Ok c →
  ∃ view, aws_config c = Ok view ∧
    view !! "region_name" =
      match load_dotenv w !! "AWS_DEFAULT_REGION" with
      | None => Some (VStr "us-east-1")
      | Some s => if String.eqb s "" then None else Some (VStr s)
      end ∧
    ∀ key var,
      (key, var) ∈ [ ("aws_access_key_id", "AWS_ACCESS_KEY_ID");
                     ("aws_secret_access_key", "AWS_SECRET_ACCESS_KEY");
                     ("aws_session_token", "AWS_SESSION_TOKEN") ] →
      view !! key =
        match load_dotenv w !! var with
        | None => None
        | Some s => if String.eqb s "" then None else Some (VStr s)
        end.
Proof.
  rewrite (init_without_file w None I).
  intros (z1 & z2 & _ & _ & ->)%load_env_vars_tree.
  eexists. split; [apply aws_config_entries|].
  assert (value_at (env_tree (load_dotenv w) z1 z2) "aws.region"
          = VStr (getenv_or (load_dotenv w) "AWS_DEFAULT_REGION" "us-east-1")) as ->
    by (by vm_compute).
  assert (value_at (env_tree (load_dotenv w) z1 z2) "aws.session_token"
          = getenv (load_dotenv w) "AWS_SESSION_TOKEN") as -> by (by vm_compute).
  assert (value_at (env_tree (load_dotenv w) z1 z2) "aws.secret_access_key"
          = getenv (load_dotenv w) "AWS_SECRET_ACCESS_KEY") as -> by (by vm_compute).
  assert (value_at (env_tree (load_dotenv w) z1 z2) "aws.access_key_id"
          = getenv (load_dotenv w) "AWS_ACCESS_KEY_ID") as -> by (by vm_compute).
  split.
  - rewrite lookup_entry, decide_True by done.
    rewrite !entry_getenv, lookup_empty, !decide_False by done. unfold getenv_or.
    destruct (load_dotenv w !! "AWS_DEFAULT_REGION") as [s|]; [|done]. simpl.
    by destruct (String.eqb s "").
  - intros key var. rewrite !elem_of_cons, elem_of_nil.
    intros [?|[?|[?|[]]]]; simplify_eq;
      rewrite lookup_entry, decide_False by done;
      rewrite !entry_getenv, lookup_empty;
      repeat (first [rewrite decide_True by done|rewrite decide_False by done]);
      repeat case_match; done.
Qed.

(** X20: a write to one of the four credential paths shows in the view:
    its output key holds the value written when that value is truthy and is
    absent when it is not. *)
Theorem set_credential (t : tree) (k p : string) (v : value) :
  (k, p) ∈ credential_paths →
  mappings_or_absent t (init_segments p) = true →
  ∃ t' view, set t p v = Ok t' ∧ aws_config t' = Ok view ∧
             view !! k = if truthy v then Some v else None.
Proof.
  intros Hp%source_path_elem Hwf. rewrite set_outcome, Hwf.
  destruct (aws_config_lookup (assign t (init_segments p) (final_segment p) v))
    as (view & Hview & Hlookup).
  eexists _, view. split; [done|]. split; [done|].
  rewrite Hlookup, Hp. simpl. unfold value_at, addressed.
  by rewrite (segments_split p), resolve_assign.
Qed.

(** ** Three more facts on the configuration *)

(** X26: the loop of [_merge_config] gives the same tree in whatever order
    it takes the items of the overlay. *)
Theorem merge_config_order_free (base : tree) (l l' : list (string * value)) :
  NoDup l.*1 → l ≡ₚ l' →
  merge_in_order base l = merge_in_order base l' ∧
  merge_in_order base l = _merge_config base (VDict (list_to_map l)).
Proof.
  intros Hl Hperm. split; [|by apply merge_config_any_order].
  rewrite !merge_config_any_order; [|by rewrite <-Hperm|done].
  by rewrite (list_to_map_proper l l').
Qed.

(** X27: [set] fails exactly on the paths one of whose non-final segments
    holds something that is not a mapping, and then with a [TypeError]. *)
Theorem set_raises_exactly (t : tree) (p : string) (v : value) :
  (Py.raises (set t p v) ↔ mappings_or_absent t (init_segments p) = false) ∧
  (∀ e, set t p v = Raise e ↔
        e = TypeError ∧ mappings_or_absent t (init_segments p) = false).
Proof.
  rewrite set_outcome. destruct (mappings_or_absent t (init_segments p)); split.
  - split; [by intros [e ?]|done].
  - intros e. split; [done|by intros [_ ?]].
  - split; [done|by eexists].
  - intros e. split; [by intros [= <-]|by intros [-> _]].
Qed.

Lemma load_dotenv_lookup (w : world) (var : string) :
  load_dotenv w !! var =
    match environ w !! var with
    | Some s => Some s
    | None => dotenv w ≫= λ assignments, assignments !! var
    end.
Proof.
  unfold load_dotenv. destruct (dotenv w) as [assignments|]; simpl.
  - rewrite lookup_union. by destruct (environ w !! var), (assignments !! var).
  - by destruct (environ w !! var).
Qed.

(** X28: for the paths that have a default the layers are, from the
    strongest to the weakest: the process environment, the [.env] file of
    the working directory, the default; [.env] never overrides a variable
    that is already set. *)
Theorem dotenv_precedence (w : world) (c : tree) (d : value) :
  __init__ w None = Ok c →
  ∀ path var default, (path, var, default) ∈ env_strings →
    get c path d =
      Ok (VStr match environ w !! var with
               | Some s => s
               | None =>
                   match dotenv w ≫= λ assignments, assignments !! var with
                   | Some s => s
                   | None => default
                   end
               end).
Proof.
  rewrite (init_without_file w None I).
  intros (z1 & z2 & _ & _ & ->)%load_env_vars_tree path var default Hin.
  rewrite (env_tree_strings _ _ _ _ _ _ _ Hin). unfold getenv_or.
  rewrite load_dotenv_lookup. by destruct (environ w !! var).
Qed.

(** ** get_logger *)

Section get_logger_facts.
Import Logger.
Variable named_level : string → result Z.

Lemma get_logger_handlers (loggers loggers' : string → logger) (name : string) (lv : value) :
  get_logger named_level loggers name lv = Ok loggers' →
  handlers (loggers' name) =
    (if no_handlers (loggers name)
     then [Handler "sys.stdout" "%(asctime)s - %(name)s - %(levelname)s - %(message)s"]
     else handlers (loggers name)) ∧
  ∀ other, other ≠ name → loggers' other = loggers other.
Proof.
  unfold get_logger. intros H.
  assert (∃ l, loggers' = store loggers name
                 (if no_handlers l then addHandler l (Handler "sys.stdout"
                    "%(asctime)s - %(name)s - %(levelname)s - %(message)s") else l) ∧
               handlers l = handlers (loggers name)) as (l & -> & Hl).
  { destruct (truthy lv).
    - destruct lv as [| | |s| |]; try done. simpl in H.
      destruct (named_level (upper s)) as [number|]; [|done]. simpl in H.
      injection H as <-. by eexists.
    - destruct (no_handlers (loggers name)) eqn:E; simpl in H; injection H as <-.
      + eexists (setLevel _ _). by split.
      + exists (loggers name). by rewrite E. }
  split.
  - unfold store. rewrite String.eqb_refl. unfold no_handlers. rewrite Hl.
    destruct (handlers (loggers name)); [|done]. simpl. by rewrite Hl.
  - intros other Hne. unfold store. by apply String.eqb_neq in Hne as ->.
Qed.

(** X21: for a name that is not one of the root logger, [get_logger] gives
    a logger one handler and never a second one: a logger without handlers
    gets the one that writes to stdout, a logger that has handlers keeps
    them as they are, so that calling it again for the same name, with any
    level, adds nothing; no other logger is touched. *)
Theorem get_logger_one_handler
    (loggers first second : string → logger) (name : string) (lv1 lv2 : value) :
  name ≠ "" → name ≠ "root" →
  get_logger named_level loggers name lv1 = Ok first →
  get_logger named_level first name lv2 = Ok second →
  handlers (first name) ≠ [] ∧
  handlers (second name) = handlers (first name) ∧
  (handlers (loggers name) = [] →
   handlers (second name)
     = [Handler "sys.stdout" "%(asctime)s - %(name)s - %(levelname)s - %(message)s"]) ∧
  ∀ other, other ≠ name → second other = loggers other.
Proof.
  intros _ _ [H1 F1]%get_logger_handlers [H2 F2]%get_logger_handlers.
  assert (handlers (first name) ≠ []) as Hne.
  { rewrite H1. unfold no_handlers. by destruct (handlers (loggers name)). }
  assert (handlers (second name) = handlers (first name)) as Hsame.
  { rewrite H2. unfold no_handlers. by destruct (handlers (first name)). }
  split_and!; [done..| |].
  - intros Hnone. rewrite Hsame, H1. unfold no_handlers. by rewrite Hnone.
  - intros other Hother. by rewrite F2, F1.
Qed.

(** X22: once a logger has been set up, asking for it again without a
    level (or with an empty one) changes nothing: the level chosen earlier
    stays, and the call cannot fail. The default level [INFO] is given only
    to a logger that has no handler yet. *)
Theorem get_logger_keeps_level
    (loggers first : string → logger) (name : string) (lv lv' : value) :
  get_logger named_level loggers name lv = Ok first →
  truthy lv' = false →
  ∃ second, get_logger named_level first name lv' = Ok second ∧
            ∀ other, second other = first other.
Proof.
  intros [H1 _]%get_logger_handlers Hfalsy.
  assert (no_handlers (first name) = false) as Hno.
  { unfold no_handlers. rewrite H1. unfold no_handlers.
    by destruct (handlers (loggers name)). }
  unfold get_logger. rewrite Hfalsy, Hno. simpl. rewrite Hno.
  eexists. split; [done|]. intros other. unfold store.
  by destruct (String.eqb_spec other name) as [->|].
Qed.

End get_logger_facts.

(** ** The S3 methods that read the configuration *)

Section s3_facts.
Import Service.

Lemma run_bind_lift {A B} (c : result A) (f : A → prog B) (s : service) (past : list event) :
  run (bind (lift c) f) s past =
    match c with
    | Ok a => run (f a) s past
    | Raise e => (past, Raised (Python e))
    end.
Proof. by destruct c. Qed.

(** X23: [create_bucket] makes exactly one call to the SDK. The region is
    the argument when it is truthy and [aws.region] of the configuration
    otherwise; the call carries a [LocationConstraint], that region, exactly
    when the region is not [us-east-1], so that [us-east-1] is never sent
    as a constraint. It returns [True] when the SDK answers and raises what
    the SDK raised when it does not, a [ClientError] after one line in the
    log. *)
Theorem create_bucket_request
    (s : service) (_config : tree) (bucket_name : string) (region : value) :
  let effective := if truthy region then region else value_at _config "aws.region" in
  ∃ kwargs a said,
    run (create_bucket _config bucket_name region) s []
      = (Called "create_bucket" [] kwargs a :: said,
         match a with
         | Responds _ => Returned true
         | Fails e => Raised e
         end) ∧
    a = respond s [] "create_bucket" [] kwargs ∧
    calls said = [] ∧
    kwargs !! "Bucket" = Some (VStr bucket_name) ∧
    kwargs !! "CreateBucketConfiguration" =
      (if differs effective "us-east-1"
       then Some (VDict {[ "LocationConstraint" := effective ]})
       else None) ∧
    kwargs !! "CreateBucketConfiguration"
      ≠ Some (VDict {[ "LocationConstraint" := VStr "us-east-1" ]}) ∧
    said = match a with
           | Responds _ => [Said "info" ("Created bucket: " +:+ bucket_name)]
           | Fails (ClientError text) =>
               [Said "error"
                  ("Failed to create bucket " +:+ bucket_name +:+ ": " +:+ text)]
           | Fails _ => []
           end.
Proof.
  intros effective. unfold create_bucket.
  assert ((if truthy region then Ret region
           else lift (get _config "aws.region" VNone)) = Ret effective) as ->.
  { unfold effective. destruct (truthy region); [done|]. by rewrite get_value_at. }
  cbn [bind].
  assert (∀ kwargs : tree,
    let a := respond s [] "create_bucket" [] kwargs in
    let said :=
      match a with
      | Responds _ => [Said "info" ("Created bucket: " +:+ bucket_name)]
      | Fails (ClientError text) =>
          [Said "error" ("Failed to create bucket " +:+ bucket_name +:+ ": " +:+ text)]
      | Fails _ => []
      end in
    run (try_except
           (bind (call "create_bucket" [] kwargs)
              (λ _, Say "info" ("Created bucket: " +:+ bucket_name) (Ret true)))
           (λ e, match e with
                 | ClientError text =>
                     Say "error"
                       ("Failed to create bucket " +:+ bucket_name +:+ ": " +:+ text)
                       (Throw e)
                 | _ => Throw e
                 end)) s []
      = (Called "create_bucket" [] kwargs a :: said,
         match a with
         | Responds _ => Returned true
         | Fails e => Raised e
         end) ∧ calls said = []) as Hrun.
  { intros kwargs a said. unfold said, a. cbn [call bind try_except run app].
    by destruct (respond s [] "create_bucket" [] kwargs) as [r|[e|text|m|n]]. }
  destruct (differs effective "us-east-1") eqn:Hd.
  - destruct (Hrun {[ "Bucket" := VStr bucket_name;
                      "CreateBucketConfiguration" :=
                        VDict {[ "LocationConstraint" := effective ]} ]}) as [H1 H2].
    do 3 eexists. split_and!; [exact H1|done|exact H2|by vm_compute| | |done].
    + by rewrite lookup_insert_ne, lookup_singleton_eq.
    + rewrite lookup_insert_ne, lookup_singleton_eq by done.
      intros H.
      apply (f_equal (λ o, match o with
                           | Some (VDict m) => m !! "LocationConstraint"
                           | _ => None
                           end)) in H.
      rewrite !lookup_singleton_eq in H. injection H as H.
      rewrite H in Hd. by vm_compute in Hd.
  - destruct (Hrun {[ "Bucket" := VStr bucket_name ]}) as [H1 H2].
    do 3 eexists. split_and!; [exact H1|done|exact H2|by vm_compute| | |done].
    + by rewrite lookup_singleton_ne.
    + by rewrite lookup_singleton_ne.
Qed.

(** X24: [upload_file] on a path that is not on the disk calls nothing of
    the SDK: it writes one line to the log and raises the
    [FileNotFoundError] that names the path. *)
Theorem upload_file_missing
    (s : service) (_config : tree) (file_path bucket_name : string)
    (object_key : option string) (extra_args : option tree) :
  on_disk s [] file_path = false →
  run (upload_file _config file_path bucket_name object_key extra_args) s []
    = ([Checked file_path false;
        Said "error" ("Failed to upload file: File not found: " +:+ file_path)],
       Raised (FileNotFoundError ("File not found: " +:+ file_path))).
Proof.
  intros Hdisk. unfold upload_file. cbn [try_except run app]. by rewrite Hdisk.
Qed.

Lemma basename_no_slash (p : string) : has_slash (basename p) = false.
Proof.
  induction p as [|c p IH]; [done|]. cbn [basename].
  destruct (has_slash (String c p)) eqn:E; [done|exact E].
Qed.

Lemma basename_suffix (p : string) : ∃ directory, p = directory +:+ basename p.
Proof.
  induction p as [|c p [directory IH]]; [by exists ""|]. cbn [basename].
  destruct (has_slash (String c p)).
  - exists (String c directory).
    change (String c directory +:+ basename p)
      with (String c (directory +:+ basename p)).
    by f_equal.
  - by exists "".
Qed.

(** X25: [upload_file] on a path that is on the disk makes one call
    [upload_file] of the SDK. The key is the one given, the empty string
    included, and otherwise what follows the last slash of the path. The
    [ExtraArgs] are those of the caller, none of them changed, to which
    [ServerSideEncryption] is added with the value of [s3.encryption] when
    the caller gave none and that value is truthy: what the caller chose
    is never overridden by the configuration. *)
Theorem upload_file_request
    (s : service) (_config : tree) (file_path bucket_name : string)
    (object_key : option string) (extra_args : option tree) :
  on_disk s [] file_path = true →
  let given := default ∅ extra_args in
  let key := default (basename file_path) object_key in
  ∃ sent a said,
    run (upload_file _config file_path bucket_name object_key extra_args) s []
      = (Checked file_path true
         :: Called "upload_file" [VStr file_path; VStr bucket_name; VStr key]
              {[ "ExtraArgs" := VDict sent ]} a
         :: said,
         match a with
         | Responds _ => Returned (true, sent)
         | Fails e => Raised e
         end) ∧
    calls said = [] ∧
    (object_key = None → has_slash key = false ∧ ∃ directory, file_path = directory +:+ key) ∧
    (∀ k v, given !! k = Some v → sent !! k = Some v) ∧
    (∀ k, k ≠ "ServerSideEncryption" → sent !! k = given !! k) ∧
    sent !! "ServerSideEncryption" =
      match given !! "ServerSideEncryption" with
      | Some chosen => Some chosen
      | None =>
          if truthy (value_at _config "s3.encryption")
          then Some (value_at _config "s3.encryption")
          else None
      end.
Proof.
  intros Hdisk given key. unfold upload_file.
  cbn [try_except run app]. rewrite Hdisk. cbn [negb].
  rewrite get_value_at. cbn [lift bind].
  fold given. fold key.
  set (sent := if truthy (value_at _config "s3.encryption")
                  && negb (bool_decide (is_Some (given !! "ServerSideEncryption")))
               then <["ServerSideEncryption" := value_at _config "s3.encryption"]> given
               else given).
  exists sent, (respond s [Checked file_path true] "upload_file"
                  [VStr file_path; VStr bucket_name; VStr key]
                  {[ "ExtraArgs" := VDict sent ]}).
  exists (match respond s [Checked file_path true] "upload_file"
                  [VStr file_path; VStr bucket_name; VStr key]
                  {[ "ExtraArgs" := VDict sent ]} with
          | Responds _ =>
              [Said "info" ("Uploaded " +:+ file_path +:+ " to s3://" +:+ bucket_name
                            +:+ "/" +:+ key)]
          | Fails (ClientError text) | Fails (FileNotFoundError text) =>
              [Said "error" ("Failed to upload file: " +:+ text)]
          | Fails _ => []
          end).
  split_and!.
  - cbn [call bind try_except run app].
    destruct (respond s _ "upload_file" _ _) as [r|[e|text|m|n]]; reflexivity.
  - by destruct (respond s _ "upload_file" _ _) as [r|[e|text|m|n]].
  - intros ->. unfold key. simpl. split; [apply basename_no_slash|apply basename_suffix].
  - intros k v Hk. unfold sent.
    destruct (truthy _); [|done]. simpl. case_bool_decide as Hsse; [done|]. simpl.
    rewrite lookup_insert_ne; [done|]. intros <-. apply Hsse. by eexists.
  - intros k Hk. unfold sent.
    destruct (truthy _); [|done]. simpl. case_bool_decide; [done|]. simpl.
    by rewrite lookup_insert_ne.
  - unfold sent. destruct (given !! "ServerSideEncryption") as [chosen|] eqn:E.
    + rewrite bool_decide_true by eauto. by rewrite andb_false_r.
    + rewrite bool_decide_false by (by intros [? ?]). rewrite andb_true_r.
      destruct (truthy _); [apply lookup_insert_eq|done].
Qed.

End s3_facts.

(** ** The further theorems at work on the samples *)

Example init_scenarios :
  __init__ Sample.fixture None = Ok (env_tree (environ Sample.fixture) 30 128) ∧
  __init__ Scenario.debugging None = Ok (env_tree (environ Scenario.debugging) 30 128) ∧
  __init__ Scenario.wiped (Some "wiped.yaml")
    = Ok (<["aws" := VNone]> (Sample.defaults "us-east-1")).
Proof. repeat split; vm_compute; reflexivity. Qed.

Lemma set_read_through_witness :
  mappings_or_absent Sample.nested (init_segments "a.c") = true ∧
  ∃ t', set Sample.nested "a.c" (VDict {[ "d" := VInt 3 ]}) = Ok t' ∧
        ∀ q d, get t' ("a.c" +:+ "." +:+ q) d = get {[ "d" := VInt 3 ]} q d.
Proof.
  split; [reflexivity|].
  apply (set_read_through Sample.nested "a.c" (VDict {[ "d" := VInt 3 ]})).
  reflexivity.
Defined.

Lemma set_twice_witness :
  mappings_or_absent Sample.nested (init_segments "a.b") = true ∧
  ∃ t1 t2, set Sample.nested "a.b" (VInt 2) = Ok t1 ∧ set t1 "a.b" (VInt 3) = Ok t2 ∧
           set Sample.nested "a.b" (VInt 3) = Ok t2.
Proof.
  split; [reflexivity|].
  apply (set_twice Sample.nested "a.b" (VInt 2) (VInt 3)). reflexivity.
Defined.

Lemma dotless_key_witness :
  dotless "region" = true ∧
  get Sample.nested "region" (VStr "none") = Ok (default (VStr "none") (Sample.nested !! "region")) ∧
  set Sample.nested "region" (VStr "eu-west-1") = Ok (<["region" := VStr "eu-west-1"]> Sample.nested).
Proof.
  split; [reflexivity|].
  apply (dotless_key Sample.nested "region" (VStr "eu-west-1") (VStr "none")). reflexivity.
Defined.

Lemma merge_overlay_wins_witness :
  addressed Sample.overlay_config "aws.region" = Some (VStr "eu-west-1") ∧
  isinstance_dict (VStr "eu-west-1") = false ∧
  ∃ M, _merge_config Sample.base_config (VDict Sample.overlay_config) = Ok M ∧
       get M "aws.region" VNone = Ok (VStr "eu-west-1").
Proof.
  split; [reflexivity|]. split; [reflexivity|].
  apply (merge_overlay_wins Sample.base_config Sample.overlay_config "aws.region");
    reflexivity.
Defined.

Lemma merge_base_survives_witness :
  missing_in Sample.overlay_config (split_dot "aws.access_key_id") = true ∧
  ∃ M, _merge_config Sample.base_config (VDict Sample.overlay_config) = Ok M ∧
       get M "aws.access_key_id" VNone = get Sample.base_config "aws.access_key_id" VNone.
Proof.
  split; [reflexivity|].
  apply (merge_base_survives Sample.base_config Sample.overlay_config "aws.access_key_id").
  reflexivity.
Defined.

Lemma env_layer_table_witness :
  __init__ Sample.fixture None = Ok (env_tree (environ Sample.fixture) 30 128) ∧
  get (env_tree (environ Sample.fixture) 30 128) "aws.region" (VStr "unused")
    = Ok (VStr "us-west-2") ∧
  get (env_tree (environ Sample.fixture) 30 128) "aws.session_token" (VStr "unused")
    = Ok VNone.
Proof.
  destruct init_scenarios as (Hinit & _ & _).
  destruct (env_layer_table Sample.fixture _ (VStr "unused") Hinit)
    as (Hstrings & Hoptionals & _ & _).
  split; [exact Hinit|]. split.
  - apply (Hstrings "aws.region" "AWS_DEFAULT_REGION" "us-east-1").
    apply list_elem_of_here.
  - apply (Hoptionals "aws.session_token" "AWS_SESSION_TOKEN").
    do 2 apply list_elem_of_further. apply list_elem_of_here.
Defined.

Lemma debug_flag_witness :
  __init__ Scenario.debugging None = Ok (env_tree (environ Scenario.debugging) 30 128) ∧
  "True" ∈ true_spellings ∧
  get (env_tree (environ Scenario.debugging) 30 128) "app.debug" VNone = Ok (VBool true).
Proof.
  destruct init_scenarios as (_ & Hinit & _).
  assert ("True" ∈ true_spellings) as Hspelled.
  { do 8 apply list_elem_of_further. apply list_elem_of_here. }
  split; [exact Hinit|]. split; [exact Hspelled|].
  apply (proj1 (debug_flag Scenario.debugging _ VNone Hinit)).
  exists "True". split; [reflexivity|exact Hspelled].
Defined.

Lemma integer_env_required_witness :
  env_file_error Sample.broken_timeout = None ∧
  plain "abc" = true ∧ plain "128" = true ∧
  integer_env Sample.broken_timeout = false ∧
  ∃ var default,
    (var, default) ∈ [("LAMBDA_TIMEOUT", "30"); ("LAMBDA_MEMORY_SIZE", "128")] ∧
    int_literal (getenv_or (load_dotenv Sample.broken_timeout) var default) = None ∧
    __init__ Sample.broken_timeout (Some "broken.yaml") =
      Raise (ValueError ("invalid literal for int() with base 10: "
                         +:+ str_take 200
                               (repr (getenv_or (load_dotenv Sample.broken_timeout)
                                        var default)))).
Proof.
  split; [reflexivity|]. split; [reflexivity|]. split; [reflexivity|].
  split; [reflexivity|].
  apply (integer_env_required Sample.broken_timeout (Some "broken.yaml")); reflexivity.
Defined.

Lemma sections_present_witness :
  __init__ Sample.regions (Some "config.yaml") = Ok (Sample.defaults "ap-south-1") ∧
  ∀ k, k ∈ sections → is_Some (Sample.defaults "ap-south-1" !! k).
Proof.
  destruct init_samples as (_ & _ & Hinit). split; [exact Hinit|].
  apply (sections_present Sample.regions (Some "config.yaml") _ Hinit).
Defined.

Lemma file_overlay_precedence_witness :
  open_yaml Sample.regions "config.yaml"
    = Document (VDict {[ "aws" := VDict {[ "region" := VStr "ap-south-1" ]} ]}) ∧
  __init__ Sample.regions None = Ok (Sample.defaults "eu-west-1") ∧
  ∃ c, __init__ Sample.regions (Some "config.yaml") = Ok c ∧
       (∀ v, addressed {[ "aws" := VDict {[ "region" := VStr "ap-south-1" ]} ]} "s3.encryption"
               = Some v →
             isinstance_dict v = false → get c "s3.encryption" VNone = Ok v) ∧
       (missing_in {[ "aws" := VDict {[ "region" := VStr "ap-south-1" ]} ]}
          (split_dot "s3.encryption") = true →
        get c "s3.encryption" VNone = get (Sample.defaults "eu-west-1") "s3.encryption" VNone).
Proof.
  destruct init_samples as (_ & Hbase & _).
  split; [reflexivity|]. split; [exact Hbase|].
  apply (file_overlay_precedence Sample.regions "config.yaml" _ _ "s3.encryption" VNone);
    [reflexivity|exact Hbase].
Defined.

Lemma aws_section_replaced_witness :
  open_yaml Scenario.wiped "wiped.yaml" = Document (VDict {[ "aws" := VNone ]}) ∧
  __init__ Scenario.wiped (Some "wiped.yaml")
    = Ok (<["aws" := VNone]> (Sample.defaults "us-east-1")) ∧
  aws_config (<["aws" := VNone]> (Sample.defaults "us-east-1")) = Ok ∅.
Proof.
  destruct init_scenarios as (_ & _ & Hinit).
  split; [reflexivity|]. split; [exact Hinit|].
  apply (aws_section_replaced Scenario.wiped "wiped.yaml" {[ "aws" := VNone ]} VNone _);
    [reflexivity|reflexivity|reflexivity|exact Hinit].
Defined.

Lemma aws_config_from_env_witness :
  __init__ Sample.fixture None = Ok (env_tree (environ Sample.fixture) 30 128) ∧
  ∃ view, aws_config (env_tree (environ Sample.fixture) 30 128) = Ok view ∧
          view !! "region_name" = Some (VStr "us-west-2").
Proof.
  destruct init_scenarios as (Hinit & _ & _). split; [exact Hinit|].
  destruct (aws_config_from_env Sample.fixture _ Hinit) as (view & Hview & Hregion & _).
  exists view. split; [exact Hview|exact Hregion].
Defined.

Lemma set_credential_witness :
  ("region_name", "aws.region") ∈ credential_paths ∧
  mappings_or_absent Sample.keyed (init_segments "aws.region") = true ∧
  ∃ t' view, set Sample.keyed "aws.region" (VStr "eu-west-1") = Ok t' ∧
             aws_config t' = Ok view ∧
             view !! "region_name" = Some (VStr "eu-west-1").
Proof.
  assert (("region_name", "aws.region") ∈ credential_paths) as Hin.
  { apply source_path_elem. reflexivity. }
  split; [exact Hin|]. split; [reflexivity|].
  apply (set_credential Sample.keyed "region_name" "aws.region" (VStr "eu-west-1"));
    [exact Hin|reflexivity].
Defined.

Lemma get_logger_one_handler_witness :
  Scenario.s3_logger ≠ "" ∧ Scenario.s3_logger ≠ "root" ∧
  Logger.get_logger Logger.standard_level Logger.fresh Scenario.s3_logger (VStr "debug")
    = Ok Scenario.set_up ∧
  Logger.get_logger Logger.standard_level Scenario.set_up Scenario.s3_logger (VStr "info")
    = Ok (Logger.store Scenario.set_up Scenario.s3_logger
            (Logger.Logger 20 [Scenario.stdout_handler])) ∧
  Logger.handlers
    (Logger.store Scenario.set_up Scenario.s3_logger
       (Logger.Logger 20 [Scenario.stdout_handler]) Scenario.s3_logger)
    = Logger.handlers (Scenario.set_up Scenario.s3_logger).
Proof.
  split; [discriminate|]. split; [discriminate|].
  split; [reflexivity|]. split; [reflexivity|].
  apply (get_logger_one_handler Logger.standard_level Logger.fresh Scenario.set_up _
           Scenario.s3_logger (VStr "debug") (VStr "info"));
    try discriminate; reflexivity.
Defined.

Lemma get_logger_keeps_level_witness :
  Logger.get_logger Logger.standard_level Logger.fresh Scenario.s3_logger (VStr "debug")
    = Ok Scenario.set_up ∧
  truthy VNone = false ∧
  ∃ second,
    Logger.get_logger Logger.standard_level Scenario.set_up Scenario.s3_logger VNone
      = Ok second ∧
    ∀ other, second other = Scenario.set_up other.
Proof.
  split; [reflexivity|]. split; [reflexivity|].
  apply (get_logger_keeps_level Logger.standard_level Logger.fresh Scenario.set_up
           Scenario.s3_logger (VStr "debug") VNone); reflexivity.
Defined.

Lemma upload_file_missing_witness :
  Service.on_disk Scenario.obliging [] "/tmp/absent.csv" = false ∧
  Service.run
    (Service.upload_file Sample.keyed "/tmp/absent.csv" "reports" None None)
    Scenario.obliging []
    = ([Service.Checked "/tmp/absent.csv" false;
        Service.Said "error" "Failed to upload file: File not found: /tmp/absent.csv"],
       Service.Raised (Service.FileNotFoundError "File not found: /tmp/absent.csv")).
Proof.
  split; [reflexivity|].
  apply (upload_file_missing Scenario.obliging Sample.keyed "/tmp/absent.csv" "reports").
  reflexivity.
Defined.

Lemma upload_file_request_witness :
  Service.on_disk Scenario.obliging [] "/tmp/report.csv" = true ∧
  ∃ sent a said,
    Service.run
      (Service.upload_file (Sample.defaults "us-east-1") "/tmp/report.csv" "reports" None
         (Some {[ "ACL" := VStr "private" ]}))
      Scenario.obliging []
      = (Service.Checked "/tmp/report.csv" true
         :: Service.Called "upload_file"
              [VStr "/tmp/report.csv"; VStr "reports"; VStr "report.csv"]
              {[ "ExtraArgs" := VDict sent ]} a
         :: said,
         match a with
         | Service.Responds _ => Service.Returned (true, sent)
         | Service.Fails e => Service.Raised e
         end) ∧
    sent !! "ServerSideEncryption" = Some (VStr "AES256") ∧
    sent !! "ACL" = Some (VStr "private").
Proof.
  split; [reflexivity|].
  destruct (upload_file_request Scenario.obliging (Sample.defaults "us-east-1")
              "/tmp/report.csv" "reports" None (Some {[ "ACL" := VStr "private" ]})
              eq_refl) as (sent & a & said & Hrun & _ & _ & Hkept & _ & Hsse).
  exists sent, a, said. split; [exact Hrun|]. split; [exact Hsse|].
  apply Hkept. reflexivity.
Defined.

Lemma merge_config_order_free_witness :
  NoDup [("b", VInt 2); ("c", VInt 3)].*1 ∧
  [("b", VInt 2); ("c", VInt 3)] ≡ₚ [("c", VInt 3); ("b", VInt 2)] ∧
  merge_in_order Sample.nested [("b", VInt 2); ("c", VInt 3)]
    = merge_in_order Sample.nested [("c", VInt 3); ("b", VInt 2)] ∧
  merge_in_order Sample.nested [("b", VInt 2); ("c", VInt 3)]
    = _merge_config Sample.nested (VDict (list_to_map [("b", VInt 2); ("c", VInt 3)])).
Proof.
  assert (NoDup [("b", VInt 2); ("c", VInt 3)].*1) as Hnodup.
  { apply (bool_decide_unpack _). reflexivity. }
  assert ([("b", VInt 2); ("c", VInt 3)] ≡ₚ [("c", VInt 3); ("b", VInt 2)]) as Hperm.
  { apply Permutation_swap. }
  split; [exact Hnodup|]. split; [exact Hperm|].
  apply (merge_config_order_free Sample.nested _ _ Hnodup Hperm).
Defined.

Lemma dotenv_precedence_witness :
  __init__ Scenario.with_dotenv None
    = Ok (env_tree (load_dotenv Scenario.with_dotenv) 30 128) ∧
  ("aws.region", "AWS_DEFAULT_REGION", "us-east-1") ∈ env_strings ∧
  ("app.log_level", "LOG_LEVEL", "INFO") ∈ env_strings ∧
  get (env_tree (load_dotenv Scenario.with_dotenv) 30 128) "aws.region" VNone
    = Ok (VStr "eu-west-1") ∧
  get (env_tree (load_dotenv Scenario.with_dotenv) 30 128) "app.log_level" VNone
    = Ok (VStr "DEBUG").
Proof.
  assert (__init__ Scenario.with_dotenv None
          = Ok (env_tree (load_dotenv Scenario.with_dotenv) 30 128)) as Hinit.
  { vm_compute. reflexivity. }
  assert (("aws.region", "AWS_DEFAULT_REGION", "us-east-1") ∈ env_strings) as H1.
  { apply list_elem_of_here. }
  assert (("app.log_level", "LOG_LEVEL", "INFO") ∈ env_strings) as H2.
  { apply list_elem_of_further, list_elem_of_here. }
  split; [exact Hinit|]. split; [exact H1|]. split; [exact H2|]. split.
  - exact (dotenv_precedence Scenario.with_dotenv _ VNone Hinit _ _ _ H1).
  - exact (dotenv_precedence Scenario.with_dotenv _ VNone Hinit _ _ _ H2).
Defined.

(** ** [get] and [set] on objects *)

Section store_facts.
Import Store.












End store_facts.








